(** * tools/inject_exif.py: EXIF injection and its batch driver

  A shallow embedding of [inject_exif] and [main] together with the
  library behaviour they rely on (SHA-256 from hashlib, dictionaries,
  pathlib globbing and sorting, f-string formatting), followed by the
  properties of the program. *)

From Stdlib Require Import ZArith Lia List Ascii String.
From Stdlib.Strings Require Import Byte.
From stdpp Require Import base tactics option list sorting gmap strings pretty.
Import ListNotations.

Local Open Scope Z_scope.

(** ** hashlib.sha256 (FIPS 180-4), on 32-bit words held in [Z] *)

Module SHA256.

Definition mask32 : Z := 0xFFFFFFFF.
Definition wrap (x : Z) : Z := x mod 2 ^ 32.
Definition add32 (x y : Z) : Z := wrap (x + y).
Definition not32 (x : Z) : Z := Z.lxor x mask32.
Definition rotr (n x : Z) : Z :=
  Z.lor (Z.shiftr x n) (wrap (Z.shiftl x (32 - n))).

Definition Ch (x y z : Z) : Z := Z.lxor (Z.land x y) (Z.land (not32 x) z).
Definition Maj (x y z : Z) : Z :=
  Z.lxor (Z.lxor (Z.land x y) (Z.land x z)) (Z.land y z).
Definition Sigma0 (x : Z) : Z := Z.lxor (Z.lxor (rotr 2 x) (rotr 13 x)) (rotr 22 x).
Definition Sigma1 (x : Z) : Z := Z.lxor (Z.lxor (rotr 6 x) (rotr 11 x)) (rotr 25 x).
Definition sigma0 (x : Z) : Z := Z.lxor (Z.lxor (rotr 7 x) (rotr 18 x)) (Z.shiftr x 3).
Definition sigma1 (x : Z) : Z := Z.lxor (Z.lxor (rotr 17 x) (rotr 19 x)) (Z.shiftr x 10).

(** The constants are fractional parts of roots of the first primes (FIPS
    180-4, 4.2.2 and 5.3.3): 32 bits of the cube roots of the first 64 primes
    for [K], of the square roots of the first 8 for the initial hash value. *)
Definition is_prime (n : nat) : bool :=
  forallb (fun d => negb (Nat.eqb (Nat.modulo n d) 0)) (seq 2 (n - 2)).

Definition primes : list Z :=
  Eval vm_compute in map Z.of_nat (List.filter is_prime (seq 2 310)).

(** The integer cube root of [n], between [lo] and [hi], by bisection. *)
Fixpoint cube_root (fuel : nat) (lo hi n : Z) : Z :=
  match fuel with
  | O => lo
  | S fuel' =>
      if hi - lo <=? 1 then lo
      else
        let mid := (lo + hi) / 2 in
        if mid * mid * mid <=? n then cube_root fuel' mid hi n
        else cube_root fuel' lo mid n
  end.

Definition K : list Z :=
  Eval vm_compute in
    map (fun p => wrap (cube_root 40 0 (2 ^ 36) (p * 2 ^ 96))) primes.

(** The eight working variables / the intermediate hash value. *)
Record regs : Set := Regs { ra : Z; rb : Z; rc : Z; rd : Z; re : Z; rf : Z; rg : Z; rh : Z }.

Definition root_bits (i : nat) : Z :=
  wrap (Z.sqrt (nth i primes 0 * 2 ^ 64)).

Definition H0 : regs :=
  Eval vm_compute in
    Regs (root_bits 0) (root_bits 1) (root_bits 2) (root_bits 3)
         (root_bits 4) (root_bits 5) (root_bits 6) (root_bits 7).

(** Padding: a 1 bit, zero bits up to 56 mod 64 bytes, the bit length on
    64 bits, big-endian. *)
Definition be_bytes (n : nat) (x : Z) : list Z :=
  map (fun i => Z.land (Z.shiftr x (8 * Z.of_nat i)) 0xFF) (rev (seq 0 n)).

Definition pad (msg : list Z) : list Z :=
  let len := Z.of_nat (length msg) in
  msg ++ [0x80] ++ repeat 0 (Z.to_nat ((55 - len) mod 64)) ++ be_bytes 8 (8 * len).

Fixpoint be_words (bs : list Z) : list Z :=
  match bs with
  | b0 :: b1 :: b2 :: b3 :: rest =>
      (Z.lor (Z.shiftl b0 24) (Z.lor (Z.shiftl b1 16) (Z.lor (Z.shiftl b2 8) b3)))
      :: be_words rest
  | _ => []
  end.

(** Message schedule: sixteen block words extended to sixty-four. *)
Definition Wnth (w : list Z) (i : nat) : Z := nth i w 0.

Fixpoint extend (n : nat) (w : list Z) : list Z :=
  match n with
  | O => w
  | S n' =>
      let t := length w in
      extend n' (w ++ [add32 (add32 (sigma1 (Wnth w (t - 2))) (Wnth w (t - 7)))
                             (add32 (sigma0 (Wnth w (t - 15))) (Wnth w (t - 16)))])
  end.

Definition round (r : regs) (kw : Z * Z) : regs :=
  let t1 := add32 (add32 (add32 (rh r) (Sigma1 (re r))) (Ch (re r) (rf r) (rg r)))
                  (add32 (fst kw) (snd kw)) in
  let t2 := add32 (Sigma0 (ra r)) (Maj (ra r) (rb r) (rc r)) in
  Regs (add32 t1 t2) (ra r) (rb r) (rc r) (add32 (rd r) t1) (re r) (rf r) (rg r).

Definition compress (h : regs) (block : list Z) : regs :=
  let r := fold_left round (combine K (extend 48 block)) h in
  Regs (add32 (ra h) (ra r)) (add32 (rb h) (rb r)) (add32 (rc h) (rc r))
       (add32 (rd h) (rd r)) (add32 (re h) (re r)) (add32 (rf h) (rf r))
       (add32 (rg h) (rg r)) (add32 (rh h) (rh r)).

(** [blocks n ws h] consumes [n] sixteen-word blocks of [ws]. *)
Fixpoint blocks (n : nat) (ws : list Z) (h : regs) : regs :=
  match n with
  | O => h
  | S n' => blocks n' (skipn 16 ws) (compress h (firstn 16 ws))
  end.

Definition byte_val (b : byte) : Z := Z.of_N (Byte.to_N b).

Definition hash (data : list byte) : regs :=
  let ws := be_words (pad (map byte_val data)) in
  blocks (length ws / 16)%nat ws H0.

Definition regs_words (r : regs) : list Z :=
  [ra r; rb r; rc r; rd r; re r; rf r; rg r; rh r].

(** [digest()] : the 32 bytes of the final hash value. *)
Definition digest (data : list byte) : list Z :=
  concat (map (be_bytes 4) (regs_words (hash data))).

(** [hexdigest()] : two lowercase hexadecimal digits per digest byte. *)
Definition hex_digit (n : Z) : ascii :=
  nth (Z.to_nat n) (list_ascii_of_string "0123456789abcdef") "0"%char.

Definition hex_byte (b : Z) : list ascii :=
  [hex_digit (Z.shiftr b 4); hex_digit (Z.land b 0xF)].

Definition hexdigest (data : list byte) : string :=
  string_of_list_ascii (concat (map hex_byte (digest data))).

End SHA256.

(** ** Python values used by the program *)

(** [str.encode('utf-8')]: a [string] is held as its UTF-8 bytes, so encoding
    lists them. *)
Definition encode_utf8 (s : string) : list byte := list_byte_of_string s.
Definition bytes_of_string (s : string) : list byte := list_byte_of_string s.

(** [s[:n]] on a string of ASCII characters. *)
Definition str_slice_to (n : nat) (s : string) : string :=
  string_of_list_ascii (firstn n (list_ascii_of_string s)).

(** ** Text

    A [str] is held as its UTF-8 bytes.  A file name is decoded by the
    interpreter with the [surrogateescape] handler ([os.fsdecode]): a byte
    [b] that is not part of a well-formed UTF-8 sequence becomes the lone
    surrogate U+DC00+[b].  Such a code point is held here as the byte it
    stands for, and the code points of a [str] are recovered by [decode].
    The program joins names only with ASCII text, which keeps the two views
    in step. *)
Definition between (lo hi b : N) : bool := ((lo <=? b) && (b <=? hi))%N.

Definition is_cont (b : N) : bool := between 0x80 0xBF b.

(** The well-formed sequences of two, three and four bytes: no overlong
    form, no encoded surrogate, nothing above U+10FFFF. *)
Definition two_ok (b0 b1 : N) : bool := between 0xC2 0xDF b0 && is_cont b1.

Definition three_ok (b0 b1 b2 : N) : bool :=
  ((N.eqb b0 0xE0 && between 0xA0 0xBF b1)
   || (between 0xE1 0xEC b0 && is_cont b1)
   || (N.eqb b0 0xED && between 0x80 0x9F b1)
   || (between 0xEE 0xEF b0 && is_cont b1))
  && is_cont b2.

Definition four_ok (b0 b1 b2 b3 : N) : bool :=
  ((N.eqb b0 0xF0 && between 0x90 0xBF b1)
   || (between 0xF1 0xF3 b0 && is_cont b1)
   || (N.eqb b0 0xF4 && between 0x80 0x8F b1))
  && is_cont b2 && is_cont b3.

Definition payload (b : N) : N := (b mod 64)%N.

(** The surrogate that stands for an undecodable byte. *)
Definition escape (b : N) : N := (0xDC00 + b)%N.

(** [bs.decode('utf-8', 'surrogateescape')], as code points *)
Fixpoint decode (bs : list ascii) : list N :=
  match bs with
  | [] => []
  | c0 :: r0 =>
      let b0 := N_of_ascii c0 in
      if (b0 <? 0x80)%N then b0 :: decode r0
      else
        match r0 with
        | [] => escape b0 :: decode r0
        | c1 :: r1 =>
            let b1 := N_of_ascii c1 in
            if two_ok b0 b1 then ((b0 mod 32) * 64 + payload b1)%N :: decode r1
            else
              match r1 with
              | [] => escape b0 :: decode r0
              | c2 :: r2 =>
                  let b2 := N_of_ascii c2 in
                  if three_ok b0 b1 b2
                  then (((b0 mod 16) * 64 + payload b1) * 64 + payload b2)%N
                         :: decode r2
                  else
                    match r2 with
                    | [] => escape b0 :: decode r0
                    | c3 :: r3 =>
                        let b3 := N_of_ascii c3 in
                        if four_ok b0 b1 b2 b3
                        then ((((b0 mod 8) * 64 + payload b1) * 64 + payload b2) * 64
                              + payload b3)%N :: decode r3
                        else escape b0 :: decode r0
                    end
              end
        end
  end.

(** The code points of a [str]: [[ord(c) for c in s]]. *)
Definition code_points (s : string) : list N := decode (list_ascii_of_string s).

Definition is_surrogate (c : N) : bool := between 0xD800 0xDFFF c.

Definition no_surrogate (cps : list N) : bool :=
  forallb (fun c => negb (is_surrogate c)) cps.

(** [s.encode('utf-8')] returns: no code point of [s] is a surrogate. *)
Definition encodable (s : string) : bool := no_surrogate (code_points s).

Definition is_ascii (c : ascii) : bool := (N_of_ascii c <? 0x80)%N.

(** A text of ASCII characters only; a text that does not start in the
    middle of a UTF-8 sequence. *)
Definition plain (s : string) : bool := forallb is_ascii (list_ascii_of_string s).

Definition starts_plain (s : string) : bool :=
  match s with
  | EmptyString => true
  | String c _ => is_ascii c
  end.

(** [p <= q] on sequences: at the first place where they differ the elements
    decide, and a proper prefix is smaller. *)
Fixpoint seq_leb {A} `{EqDecision A} (leb : A -> A -> bool) (p q : list A) : bool :=
  match p, q with
  | [], _ => true
  | _ :: _, [] => false
  | a :: p', b :: q' => if decide (a = b) then seq_leb leb p' q' else leb a b
  end.

(** [a <= b] on [str]: by code point. *)
Definition str_leb (a b : string) : bool :=
  seq_leb N.leb (code_points a) (code_points b).


(** An instance of [Exception]: its class name and what [str(e)] gives.
    [KeyboardInterrupt] and [SystemExit], which are not [Exception]s and are
    raised from outside the program, are not part of the model; on the
    exceptions of the model a bare [except:] and [except Exception] agree. *)
Record exn : Set := Exn { exn_class : string; exn_str : string }.

Inductive Result (A : Type) : Type :=
| Ok (a : A)
| Raise (e : exn).
Arguments Ok {A} a.
Arguments Raise {A} e.

(** ** The metadata container of piexif

    [piexif.load] returns a dict from the names of the image file directories
    to dicts from tag numbers to values, with the thumbnail bytes (or [None])
    under ["thumbnail"]. *)
Inductive ExifValue : Type :=
| VBytes (b : list byte)
| VInt (n : Z)
| VInts (ns : list Z)
| VRational (num den : Z)
| VRationals (qs : list (Z * Z)).

Inductive ExifEntry : Type :=
| Ifd (tags : gmap Z ExifValue)
| Thumbnail (data : option (list byte)).

Abbreviation ExifDict := (gmap string ExifEntry).

Module ImageIFD.
Definition Copyright : Z := 0x8298.
Definition Artist : Z := 0x013B.
End ImageIFD.

Module ExifIFD.
Definition UserComment : Z := 0x9286.
End ExifIFD.

(** [{"0th": {}, "Exif": {}, "GPS": {}, "1st": {}}] *)
Definition empty_exif_dict : ExifDict :=
  <["0th" := Ifd ∅]> (<["Exif" := Ifd ∅]> (<["GPS" := Ifd ∅]> (<["1st" := Ifd ∅]> ∅))).

(** [d[ifd][tag] = v]: the inner dict is looked up ([KeyError] when absent,
    [TypeError] when the value under [ifd] takes no item assignment) and
    updated in place. *)
Definition set_tag (ifd : string) (tag : Z) (v : ExifValue) (d : ExifDict)
  : Result ExifDict :=
  match d !! ifd with
  | None => Raise (Exn "KeyError" ("'" +:+ ifd +:+ "'"))
  | Some (Ifd tags) => Ok (<[ifd := Ifd (<[tag := v]> tags)]> d)
  | Some (Thumbnail _) =>
      Raise (Exn "TypeError" "object does not support item assignment")
  end.

(** Reading a field: [d[ifd][tag]] where both exist. *)
Definition get_tag (ifd : string) (tag : Z) (d : ExifDict) : option ExifValue :=
  match d !! ifd with
  | Some (Ifd tags) => tags !! tag
  | _ => None
  end.

(** ** Paths and the file system

    A [pathlib] path is the list of its parts; the file system maps the
    paths that exist to a regular file with its content or to a directory. *)
Abbreviation Path := (list string).

Inductive node : Type :=
| File (content : list byte)
| Dir.

Abbreviation FS := (gmap (list string) node).

Fixpoint join_parts (parts : list string) : string :=
  match parts with
  | [] => "."
  | [p] => p
  | p :: rest => p +:+ "/" +:+ join_parts rest
  end.

(** [str(path)] and [path.name] *)
Definition path_str (p : Path) : string := join_parts p.
Definition path_name (p : Path) : string := List.last p EmptyString.

(** [path.exists()] *)
Definition path_exists (p : Path) (fs : FS) : bool :=
  match fs !! p with Some _ => true | None => false end.

Definition path_is_dir (p : Path) (fs : FS) : bool :=
  match fs !! p with Some Dir => true | _ => false end.

(** [Path.glob(pattern)] for a pattern of literal characters and [*]: the
    entries of the directory itself, never those of a sub-directory, whose
    name matches the whole pattern, case-sensitively (POSIX). *)
Fixpoint fnmatch (pat s : list ascii) : bool :=
  match pat with
  | [] => match s with [] => true | _ :: _ => false end
  | c :: pat' =>
      if Ascii.eqb c "*" then
        (fix star (s : list ascii) : bool :=
           fnmatch pat' s || match s with [] => false | _ :: s' => star s' end) s
      else
        match s with
        | [] => false
        | c' :: s' => Ascii.eqb c c' && fnmatch pat' s'
        end
  end.

Fixpoint strip_prefix (dir p : Path) : option Path :=
  match dir, p with
  | [], _ => Some p
  | d :: dir', x :: p' => if decide (d = x) then strip_prefix dir' p' else None
  | _ :: _, [] => None
  end.

(** The name of [p] when [p] is an entry of the directory [dir]. *)
Definition child_name (dir p : Path) : option string :=
  match strip_prefix dir p with
  | Some [name] => Some name
  | _ => None
  end.

(** [os.scandir(dir)]: the names of the entries, in the order the file
    system gives them. *)
Definition scandir (dir : Path) (files : FS) : list string :=
  omap (fun kv => child_name dir (fst kv)) (map_to_list files).

Definition glob (dir : Path) (pattern : string) (files : FS) : list Path :=
  if path_is_dir dir files then
    map (fun name => dir ++ [name])
        (List.filter (fun name => fnmatch (list_ascii_of_string pattern)
                                          (list_ascii_of_string name))
                     (scandir dir files))
  else [].

(** Paths compare as the lists of their parts, the parts as [str]. *)
Definition parts_leb (p q : Path) : bool :=
  seq_leb (seq_leb N.leb) (map code_points p) (map code_points q).

Definition path_le (p q : Path) : Prop := parts_leb p q.

Global Instance path_le_dec : RelDecision path_le.
Proof. intros p q. unfold path_le. apply _. Defined.

(** [sorted(paths)] *)
Definition sorted (paths : list Path) : list Path := merge_sort path_le paths.

(** ** Formatting *)

(** [len(s)]: the number of code points. *)
Definition py_len (s : string) : nat := length (code_points s).

Definition spaces (n : nat) : string := string_of_list_ascii (repeat " "%char n).

(** [{n:2d}] *)
Definition fmt_2d (n : Z) : string :=
  let s := pretty n in spaces (2 - py_len s) +:+ s.

(** [{s:<40}] *)
Definition fmt_ljust40 (s : string) : string := s +:+ spaces (40 - py_len s).

(** ['=' * 70] *)
Definition rule70 : string := string_of_list_ascii (repeat "="%char 70).

Definition newline : string := String (ascii_of_nat 10) EmptyString.

(** ** The libraries behind the program

    piexif and Pillow are not part of the repository: the program is
    modelled over any behaviour of theirs.  Loading and opening read the
    file system; saving may change it, whether it returns or raises.  The
    interpreter's [repr] of a [str], whose quoting and escaping follow the
    Unicode tables, is taken the same way. *)
Class Libs : Type := {
  image : Type;
(** [repr(s)] *)
  py_repr : string -> string;
(** [piexif.load(filename)] *)
  piexif_load : string -> FS -> Result ExifDict;
(** [piexif.dump(exif_dict)] *)
  piexif_dump : ExifDict -> Result (list byte);
(** [Image.open(path)] *)
  Image_open : Path -> FS -> Result image;
(** [img.save(path, format, quality=q, exif=blob)] *)
  Image_save : image -> Path -> string -> Z -> list byte -> FS -> Result unit * FS
  }.

(** The calls that leave the program, in the order they are made. *)
Inductive call : Type :=
| CallLoad (filename : string)
| CallRead (path : Path)
| CallDump (d : ExifDict)
| CallOpen (path : Path)
| CallSave (path : Path) (format : string) (quality : Z) (exif : list byte).

Record World : Type := mkWorld {
  fs : FS;
  calls : list call;
  stdout : list string
}.

Definition log (c : call) (w : World) : World :=
  mkWorld (fs w) (calls w ++ [c]) (stdout w).

(** ** State and exceptions *)

Definition M (A : Type) : Type := World -> Result A * World.

Definition ret {A} (a : A) : M A := fun w => (Ok a, w).

Definition bind {A B} (m : M A) (k : A -> M B) : M B :=
  fun w =>
    match m w with
    | (Ok a, w') => k a w'
    | (Raise e, w') => (Raise e, w')
    end.

Definition lift {A} (r : Result A) : M A := fun w => (r, w).

(** [try: body / except ... as e: handler] *)
Definition try_except {A} (body : M A) (handler : exn -> M A) : M A :=
  fun w =>
    match body w with
    | (Ok a, w') => (Ok a, w')
    | (Raise e, w') => handler e w'
    end.

Notation "'let*' x ':=' m 'in' k" :=
  (bind m (fun x => k))
  (at level 10, x name, m at level 100, k at level 200).

(** The [UnicodeEncodeError] of the UTF-8 codec: it names the first
    surrogate of the text, or the run of surrogates that starts there, by
    position. *)
Definition hex4 (c : N) : string :=
  string_of_list_ascii (SHA256.hex_byte (Z.of_N (c / 256))
                          ++ SHA256.hex_byte (Z.of_N (c mod 256))).

Fixpoint run_length (cps : list N) : nat :=
  match cps with
  | c :: rest => if is_surrogate c then S (run_length rest) else O
  | [] => O
  end.

Fixpoint encode_error (pos : Z) (cps : list N) : option exn :=
  match cps with
  | [] => None
  | c :: rest =>
      if is_surrogate c then
        Some (Exn "UnicodeEncodeError"
                  (match run_length rest with
                   | O => "'utf-8' codec can't encode character '\u" +:+ hex4 c
                            +:+ "' in position " +:+ pretty pos
                   | S k => "'utf-8' codec can't encode characters in position "
                              +:+ pretty pos +:+ "-" +:+ pretty (pos + Z.of_nat (S k))
                   end +:+ ": surrogates not allowed"))
      else encode_error (pos + 1) rest
  end.

(** [print(s)], with the standard output a UTF-8 text stream under the
    strict error handler, as it is in a UTF-8 locale: a text with a lone
    surrogate is refused, before any of it is written.  Other failures of the
    stream (a closed pipe, a full disk) are not part of the model. *)
Definition print (s : string) : M unit :=
  fun w =>
    match encode_error 0 (code_points s) with
    | None => (Ok tt, mkWorld (fs w) (calls w) (stdout w ++ [s]))
    | Some e => (Raise e, w)
    end.

(** [open(path, 'rb')] then [f.read()].  The file system of the model has no
    permissions and no I/O errors: a regular file can always be read. *)
Definition read_bytes {L : Libs} (path : Path) (files : FS) : Result (list byte) :=
  match files !! path with
  | Some (File content) => Ok content
  | Some Dir =>
      Raise (Exn "IsADirectoryError"
                 ("[Errno 21] Is a directory: " +:+ py_repr (path_str path)))
  | None =>
      Raise (Exn "FileNotFoundError"
                 ("[Errno 2] No such file or directory: " +:+ py_repr (path_str path)))
  end.

Definition open_read {L : Libs} (path : Path) : M (list byte) :=
  fun w => (read_bytes path (fs w), log (CallRead path) w).

Section Program.
Context {L : Libs}.

Definition load (filename : string) : M ExifDict :=
  fun w => (piexif_load filename (fs w), log (CallLoad filename) w).

Definition dump (d : ExifDict) : M (list byte) :=
  fun w => (piexif_dump d, log (CallDump d) w).

Definition img_open (path : Path) : M image :=
  fun w => (Image_open path (fs w), log (CallOpen path) w).

Definition img_save (img : image) (path : Path) (format : string)
           (quality : Z) (exif : list byte) : M unit :=
  fun w =>
    let '(r, files) := Image_save img path format quality exif (fs w) in
    (r, mkWorld files (calls w ++ [CallSave path format quality exif]) (stdout w)).

(** *** Configuration *)
Definition PHOTOS_DIR : Path := ["docs"; "photography"].
Definition COPYRIGHT : string := "© 2026 Chemachin".
Definition CREATOR : string := "Chemachin".

(** *** inject_exif *)

(** lines 23-26: the existing container, or a new one *)
Definition load_or_new (image_path : Path) : M ExifDict :=
  try_except (load (path_str image_path)) (fun _ => ret empty_exif_dict).

(** lines 29-30 *)
Definition content_hash (image_path : Path) : M string :=
  let* data := open_read image_path in
  ret (str_slice_to 16 (SHA256.hexdigest data)).

(** lines 33-40: the three assignments *)
Definition inject_fields (image_id : string) (exif_dict : ExifDict)
  : Result ExifDict :=
  match set_tag "0th" ImageIFD.Copyright (VBytes (encode_utf8 COPYRIGHT)) exif_dict with
  | Raise e => Raise e
  | Ok d1 =>
      match set_tag "0th" ImageIFD.Artist (VBytes (encode_utf8 CREATOR)) d1 with
      | Raise e => Raise e
      | Ok d2 =>
          set_tag "Exif" ExifIFD.UserComment (VBytes (encode_utf8 image_id)) d2
      end
  end.

(** lines 28-49, with the container in hand *)
Definition inject_rest (image_path : Path) (exif_dict : ExifDict) : M (bool * string) :=
  let* image_hash := content_hash image_path in
  let image_id := "sha256:" +:+ image_hash in
  let* exif_dict := lift (inject_fields image_id exif_dict) in
  let* exif_bytes := dump exif_dict in
  let* img := img_open image_path in
  let* _ := img_save img image_path "jpeg" 70 exif_bytes in
  ret (true, image_id).

Definition inject_body (image_path : Path) : M (bool * string) :=
  let* exif_dict := load_or_new image_path in
  inject_rest image_path exif_dict.

Definition inject_exif (image_path : Path) : M (bool * string) :=
  try_except (inject_body image_path) (fun e => ret (false, exn_str e)).

(** *** main *)

Definition line_ok (idx : Z) (total : nat) (name result : string) : string :=
  "✓ [" +:+ fmt_2d idx +:+ "/" +:+ pretty (Z.of_nat total) +:+ "] "
    +:+ fmt_ljust40 name +:+ " ID: " +:+ result.

Definition line_failed (idx : Z) (total : nat) (name result : string) : string :=
  "✗ [" +:+ fmt_2d idx +:+ "/" +:+ pretty (Z.of_nat total) +:+ "] "
    +:+ fmt_ljust40 name +:+ " Error: " +:+ result.

Definition line_completed (success : Z) (total : nat) (failed : Z) : string :=
  "Completed: " +:+ pretty success +:+ "/" +:+ pretty (Z.of_nat total)
    +:+ " ✓ | " +:+ pretty failed +:+ " ✗".

(** lines 71-79: [for idx, image_path in enumerate(jpg_files, 1)], with the
    two counters; [total] is [len(jpg_files)]. *)
Fixpoint process (total : nat) (files : list Path) (idx success failed : Z)
  : M (Z * Z) :=
  match files with
  | [] => ret (success, failed)
  | image_path :: rest =>
      let* r := inject_exif image_path in
      if fst r then
        let success := success + 1 in
        let* _ := print (line_ok idx total (path_name image_path) (snd r)) in
        process total rest (idx + 1) success failed
      else
        let failed := failed + 1 in
        let* _ := print (line_failed idx total (path_name image_path) (snd r)) in
        process total rest (idx + 1) success failed
  end.

Definition msg_not_found : string :=
  "❌ Directory " +:+ path_str PHOTOS_DIR +:+ " not found".

Definition msg_no_images : string :=
  "❌ No images found in " +:+ path_str PHOTOS_DIR.

Definition msg_found (n : nat) : string :=
  "📸 Found " +:+ pretty (Z.of_nat n) +:+ " images to process" +:+ newline.

Definition main : M unit :=
  fun w =>
    if negb (path_exists PHOTOS_DIR (fs w)) then
      print msg_not_found w
    else
      let jpg_files := sorted (glob PHOTOS_DIR "*_hu_*.jpg" (fs w)) in
      match jpg_files with
      | [] => print msg_no_images w
      | _ :: _ =>
          (let* _ := print (msg_found (length jpg_files)) in
           let* counts := process (length jpg_files) jpg_files 1 0 0 in
           let* _ := print (newline +:+ rule70) in
           let* _ := print (line_completed (fst counts) (length jpg_files) (snd counts)) in
           print rule70) w
      end.

End Program.

(** ** Vocabulary of the properties *)

(** The identifier of a file content: ["sha256:"] and the first sixteen
    characters of the hexadecimal digest. *)
Definition fingerprint (data : list byte) : string :=
  str_slice_to 16 (SHA256.hexdigest data).

Definition identifier (data : list byte) : string := "sha256:" +:+ fingerprint data.

Definition is_lower_hex (c : ascii) : bool :=
  existsb (Ascii.eqb c) (list_ascii_of_string "0123456789abcdef").

(** The three fields the program writes. *)
Definition written_field (ifd : string) (tag : Z) : Prop :=
  (ifd = "0th" /\ tag = ImageIFD.Copyright) \/
  (ifd = "0th" /\ tag = ImageIFD.Artist) \/
  (ifd = "Exif" /\ tag = ExifIFD.UserComment).

(** The calls made between two worlds of one run. *)
Definition calls_since (w w' : World) : list call :=
  skipn (length (calls w)) (calls w').

Definition is_save (c : call) : bool :=
  match c with CallSave _ _ _ _ => true | _ => false end.

(** The files handed to [piexif.load], one per call of [inject_exif]. *)
Definition loads (cs : list call) : list string :=
  omap (fun c => match c with CallLoad f => Some f | _ => None end) cs.

(** The calls of a run that reaches the save step. *)
Definition calls_to_save (image_path : Path) (d : ExifDict) (blob : list byte)
  : list call :=
  [CallLoad (path_str image_path); CallRead image_path; CallDump d;
   CallOpen image_path; CallSave image_path "jpeg" 70 blob].

(** The steps of [inject_exif] after the container is in hand. *)
Inductive step : Set := AtRead | AtAssign | AtDump | AtOpen | AtSave.

Section Vocabulary.
Context {L : Libs}.

(** The container the assignments start from: the loaded one, or the new one
    when loading raised. *)
Definition container (image_path : Path) (w : World) : ExifDict :=
  match piexif_load (path_str image_path) (fs w) with
  | Ok d => d
  | Raise _ => empty_exif_dict
  end.

(** [raises_at s image_path w e]: from the world [w], the steps before [s]
    return and the step [s] raises [e]. *)
Definition raises_at (s : step) (image_path : Path) (w : World) (e : exn) : Prop :=
  match s with
  | AtRead => read_bytes image_path (fs w) = Raise e
  | AtAssign =>
      exists data,
        read_bytes image_path (fs w) = Ok data /\
        inject_fields (identifier data) (container image_path w) = Raise e
  | AtDump =>
      exists data d,
        read_bytes image_path (fs w) = Ok data /\
        inject_fields (identifier data) (container image_path w) = Ok d /\
        piexif_dump d = Raise e
  | AtOpen =>
      exists data d blob,
        read_bytes image_path (fs w) = Ok data /\
        inject_fields (identifier data) (container image_path w) = Ok d /\
        piexif_dump d = Ok blob /\
        Image_open image_path (fs w) = Raise e
  | AtSave =>
      exists data d blob img,
        read_bytes image_path (fs w) = Ok data /\
        inject_fields (identifier data) (container image_path w) = Ok d /\
        piexif_dump d = Ok blob /\
        Image_open image_path (fs w) = Ok img /\
        fst (Image_save img image_path "jpeg" 70 blob (fs w)) = Raise e
  end.

(** [inject_exif] on each file in turn; the outcomes, and the world after. *)
Fixpoint inject_all (files : list Path) (w : World) : list (bool * string) * World :=
  match files with
  | [] => ([], w)
  | image_path :: rest =>
      match inject_exif image_path w with
      | (Ok r, w') => let '(rs, w'') := inject_all rest w' in (r :: rs, w'')
      | (Raise _, w') => ([], w')
      end
  end.

(** The per-file lines of a run: file [i] of [files], counted from [idx],
    with its outcome. *)
Fixpoint report (total : nat) (idx : Z) (files : list Path)
         (outcomes : list (bool * string)) : list string :=
  match files, outcomes with
  | image_path :: files', r :: outcomes' =>
      (if fst r then line_ok idx total (path_name image_path) (snd r)
       else line_failed idx total (path_name image_path) (snd r))
      :: report total (idx + 1) files' outcomes'
  | _, _ => []
  end.

Definition successes (outcomes : list (bool * string)) : Z :=
  Z.of_nat (length (List.filter fst outcomes)).

Definition failures (outcomes : list (bool * string)) : Z :=
  Z.of_nat (length (List.filter (fun r => negb (fst r)) outcomes)).

(** The summary lines, after the per-file lines. *)
Definition summary (total : nat) (outcomes : list (bool * string)) : list string :=
  [newline +:+ rule70;
   line_completed (successes outcomes) total (failures outcomes);
   rule70].

(** The per-file lines of a run can be printed: the names of the files hold
    no undecodable byte, and the details of the failures no surrogate. *)
Definition printable_run (files : list Path) (w : World) : bool :=
  forallb (fun p => encodable (path_name p)) files
  && forallb (fun r => fst r || encodable (snd r)) (fst (inject_all files w)).

(** Saving writes the path it is given and no other. *)
Definition save_is_local : Prop :=
  forall (img : image) (path : Path) (format : string) (quality : Z)
         (exif : list byte) (files : FS) (other : Path),
    other <> path ->
    snd (Image_save img path format quality exif files) !! other = files !! other.

End Vocabulary.

(** Names: containing an infix, ending with a suffix. *)
Definition chars (s : string) : list ascii := list_ascii_of_string s.

Definition has_infix (i s : string) : Prop :=
  exists a b, chars s = a ++ chars i ++ b.

Definition ends_with (x s : string) : Prop :=
  exists a, chars s = a ++ chars x.

(** ** A sample behaviour of the libraries

    Enough of piexif and Pillow to run the program: piexif reads the
    metadata of files that start with the JPEG marker and rejects the others;
    Pillow opens any file that is not empty and writes a JPEG with the
    metadata blob in front of the picture. *)
Fixpoint split_slash (acc s : string) : list string :=
  match s with
  | EmptyString => [String.rev acc]
  | String c s' =>
      if Ascii.eqb c "/" then String.rev acc :: split_slash EmptyString s'
      else split_slash (String c acc) s'
  end.

Definition Orientation : Z := 0x0112.

Definition sample_load (filename : string) (files : FS) : Result ExifDict :=
  match files !! split_slash EmptyString filename with
  | Some (File (xff :: xd8 :: _)) =>
      Ok (<["0th" := Ifd {[ Orientation := VInt 6 ]}]>
          (<["Exif" := Ifd ∅]> (<["GPS" := Ifd ∅]> (<["Interop" := Ifd ∅]>
          (<["1st" := Ifd ∅]> (<["thumbnail" := Thumbnail None]> ∅))))))
  | Some _ =>
      Raise (Exn "InvalidImageDataError" "Given file is neither JPEG nor TIFF.")
  | None => Raise (Exn "FileNotFoundError" "No such file or directory")
  end.

Definition sample_dump (d : ExifDict) : Result (list byte) :=
  match get_tag "Exif" ExifIFD.UserComment d with
  | Some (VBytes b) => Ok (bytes_of_string "Exif" ++ b)
  | _ => Ok (bytes_of_string "Exif")
  end.

Definition sample_open (path : Path) (files : FS) : Result (list byte) :=
  match files !! path with
  | Some (File []) =>
      Raise (Exn "UnidentifiedImageError" "cannot identify image file")
  | Some (File content) => Ok content
  | Some Dir => Raise (Exn "IsADirectoryError" "Is a directory")
  | None => Raise (Exn "FileNotFoundError" "No such file or directory")
  end.

Definition sample_save (img : list byte) (path : Path) (format : string)
           (quality : Z) (exif : list byte) (files : FS) : Result unit * FS :=
  (Ok tt, <[path := File ([xff; xd8] ++ exif ++ img)]> files).

(** [repr] of a text without quotes, backslashes or characters that do not
    print. *)
Definition sample_repr (s : string) : string := "'" +:+ s +:+ "'".

Definition sample_libs : Libs :=
  {| image := list byte;
     py_repr := sample_repr;
     piexif_load := sample_load;
     piexif_dump := sample_dump;
     Image_open := sample_open;
     Image_save := sample_save |}.

(** The sample with a loader that returns a container without directories. *)
Definition headless_libs : Libs :=
  {| image := list byte;
     py_repr := sample_repr;
     piexif_load := fun _ _ => Ok ∅;
     piexif_dump := sample_dump;
     Image_open := sample_open;
     Image_save := sample_save |}.

(** The sample with a save that opens the file for writing, which empties
    it, and then raises in the encoder. *)
Definition truncating_libs : Libs :=
  {| image := list byte;
     py_repr := sample_repr;
     piexif_load := sample_load;
     piexif_dump := sample_dump;
     Image_open := sample_open;
     Image_save := fun _ path _ _ _ files =>
       (Raise (Exn "OSError" "cannot write mode RGBA as JPEG"),
        <[path := File []]> files) |}.

(** A directory with a JPEG, an empty file, a PNG under a matching name, and
    entries the pattern leaves out. *)
Definition photo (name : string) : Path := PHOTOS_DIR ++ [name].

Definition sample_fs : FS :=
  <[ ["docs"] := Dir ]> (<[ PHOTOS_DIR := Dir ]>
  (<[ photo "b_hu_2.jpg" := File [] ]>
  (<[ photo "a_hu_1.jpg" := File [xff; xd8; x01; x02] ]>
  (<[ photo "c_hu_3.jpg" := File [x89; x50; x4e; x47] ]>
  (<[ photo "d_hu_4.JPG" := File [xff; xd8; x03] ]>
  (<[ photo "plain.jpg" := File [xff; xd8; x04] ]>
  (<[ photo "sub" := Dir ]>
  (<[ PHOTOS_DIR ++ ["sub"; "e_hu_5.jpg"] := File [xff; xd8; x05] ]> ∅)))))))).

Definition sample_world : World := mkWorld sample_fs [] [].

(** A world without the directory, and one whose directory holds no name of
    the pattern. *)
Definition bare_world : World := mkWorld ∅ [] [].

Definition unmatched_world : World :=
  mkWorld (<[ ["docs"] := Dir ]> (<[ PHOTOS_DIR := Dir ]>
           (<[ photo "plain.jpg" := File [xff; xd8; x04] ]>
           (<[ photo "d_hu_4.JPG" := File [xff; xd8; x03] ]> ∅)))) [] [].


(** * Properties *)

(** ** SHA-256: test vectors of FIPS 180-4 and the shape of the digest *)

Example sha256_empty :
  SHA256.hexdigest [] =
  "e3b0c44298fc1c149afbf4c8996fb92427ae41e4649b934ca495991b7852b855"%string.
Proof. vm_compute. reflexivity. Qed.

Example sha256_abc :
  SHA256.hexdigest (bytes_of_string "abc") =
  "ba7816bf8f01cfea414140de5dae2223b00361a396177a9cb410ff61f20015ad"%string.
Proof. vm_compute. reflexivity. Qed.

Example sha256_two_blocks :
  SHA256.hexdigest
    (bytes_of_string "abcdbcdecdefdefgefghfghighijhijkijkljklmklmnlmnomnopnopq") =
  "248d6a61d20638b8e5c026930c3e6039a33ce45964ff2167f6ecedd419db06c1"%string.
Proof. vm_compute. reflexivity. Qed.

Lemma chars_of_list (l : list ascii) : chars (string_of_list_ascii l) = l.
Proof. apply list_ascii_of_string_of_list_ascii. Qed.

Lemma chars_app (s t : string) : chars (s +:+ t) = chars s ++ chars t.
Proof. induction s as [|c s IH]; simpl; [done | by rewrite <- IH]. Qed.

Lemma digest_length (data : list byte) : length (SHA256.digest data) = 32%nat.
Proof. unfold SHA256.digest. generalize (SHA256.hash data). intros r. reflexivity. Qed.

Lemma hex_digit_lower (n : Z) : is_lower_hex (SHA256.hex_digit n) = true.
Proof.
  unfold SHA256.hex_digit. generalize (Z.to_nat n). intros k.
  do 17 (destruct k as [|k]; [reflexivity|]). reflexivity.
Qed.

Lemma hex_bytes_shape (bs : list Z) :
  length (concat (map SHA256.hex_byte bs)) = (2 * length bs)%nat /\
  forallb is_lower_hex (concat (map SHA256.hex_byte bs)) = true.
Proof.
  induction bs as [|b bs [IHl IHf]]; [done|]. split.
  - cbn [map concat length app SHA256.hex_byte]. rewrite IHl. lia.
  - cbn [map concat forallb app SHA256.hex_byte].
    by rewrite !hex_digit_lower, IHf.
Qed.

Lemma hexdigest_shape (data : list byte) :
  length (chars (SHA256.hexdigest data)) = 64%nat /\
  forallb is_lower_hex (chars (SHA256.hexdigest data)) = true.
Proof.
  unfold SHA256.hexdigest. rewrite chars_of_list.
  destruct (hex_bytes_shape (SHA256.digest data)) as [Hl Hf].
  rewrite digest_length in Hl. by split.
Qed.

Lemma forallb_firstn {A} (f : A -> bool) (n : nat) (l : list A) :
  forallb f l = true -> forallb f (firstn n l) = true.
Proof.
  revert n. induction l as [|x l IH]; intros [|n] H; simpl in *; try done.
  apply andb_true_iff in H as [-> H]. by apply IH.
Qed.

Lemma fingerprint_shape (data : list byte) :
  length (chars (fingerprint data)) = 16%nat /\
  forallb is_lower_hex (chars (fingerprint data)) = true.
Proof.
  unfold fingerprint, str_slice_to. rewrite chars_of_list.
  destruct (hexdigest_shape data) as [Hl Hf]. split.
  - rewrite length_take. unfold chars in Hl. lia.
  - by apply forallb_firstn.
Qed.

(** ** One run of [inject_exif] *)

Section Inject.
Context {L : Libs}.

(** What [inject_exif] returns and the world it leaves, by the outcome of
    each step. *)
Lemma inject_exif_run (image_path : Path) (w : World) :
  let w1 := log (CallRead image_path) (log (CallLoad (path_str image_path)) w) in
  match read_bytes image_path (fs w) with
  | Raise e => inject_exif image_path w = (Ok (false, exn_str e), w1)
  | Ok data =>
      match inject_fields (identifier data) (container image_path w) with
      | Raise e => inject_exif image_path w = (Ok (false, exn_str e), w1)
      | Ok d =>
          match piexif_dump d with
          | Raise e =>
              inject_exif image_path w = (Ok (false, exn_str e), log (CallDump d) w1)
          | Ok blob =>
              match Image_open image_path (fs w) with
              | Raise e =>
                  inject_exif image_path w =
                  (Ok (false, exn_str e), log (CallOpen image_path) (log (CallDump d) w1))
              | Ok img =>
                  let saved := Image_save img image_path "jpeg" 70 blob (fs w) in
                  let w' := mkWorld (snd saved)
                                    (calls w ++ calls_to_save image_path d blob)
                                    (stdout w) in
                  match fst saved with
                  | Raise e => inject_exif image_path w = (Ok (false, exn_str e), w')
                  | Ok _ => inject_exif image_path w = (Ok (true, identifier data), w')
                  end
              end
          end
      end
  end.
Proof.
  unfold inject_exif, inject_body, inject_rest, load_or_new, content_hash,
    try_except, bind, lift, ret, load, open_read, dump, img_open, img_save,
    container, identifier, fingerprint, calls_to_save, log.
  cbn [fs calls stdout].
  destruct (piexif_load (path_str image_path) (fs w)) as [d0|e0]; cbn [fs calls stdout];
    destruct (read_bytes image_path (fs w)) as [data|e1]; try reflexivity;
    (match goal with |- context [inject_fields ?i ?c] =>
       destruct (inject_fields i c) as [d|e2] end; try reflexivity;
     cbn [fs calls stdout];
     destruct (piexif_dump d) as [blob|e3]; try reflexivity;
     destruct (Image_open image_path (fs w)) as [img|e4]; try reflexivity;
     destruct (Image_save img image_path "jpeg" 70 blob (fs w)) as [[[]|e5] files];
     cbn [fst snd fs calls stdout]; rewrite <- ?app_assoc; reflexivity).
Qed.

End Inject.

(** Case analysis along [inject_exif_run]; the run's equation is [Hrun]. *)
Ltac by_run p w :=
  pose proof (inject_exif_run p w) as Hrun; cbv zeta in Hrun;
  repeat match type of Hrun with
         | match ?x with _ => _ end => destruct x eqn:?
         end.

Section Identifier.
Context {L : Libs}.

Lemma read_bytes_Ok (image_path : Path) (files : FS) (data : list byte) :
  read_bytes image_path files = Ok data <-> files !! image_path = Some (File data).
Proof.
  unfold read_bytes. destruct (files !! image_path) as [[c|]|]; split; congruence.
Qed.

Lemma calls_since_app (w w' : World) (cs : list call) :
  calls w' = calls w ++ cs -> calls_since w w' = cs.
Proof. unfold calls_since. intros ->. apply drop_app_length. Qed.

(** The container after the three assignments. *)
Lemma inject_fields_Ok (image_id : string) (d0 d : ExifDict) :
  inject_fields image_id d0 = Ok d <->
  exists t0 tE,
    d0 !! "0th" = Some (Ifd t0) /\ d0 !! "Exif" = Some (Ifd tE) /\
    d = <["Exif" := Ifd (<[ExifIFD.UserComment := VBytes (encode_utf8 image_id)]> tE)]>
          (<["0th" := Ifd (<[ImageIFD.Artist := VBytes (encode_utf8 CREATOR)]>
                            (<[ImageIFD.Copyright := VBytes (encode_utf8 COPYRIGHT)]> t0))]>
             d0).
Proof.
  unfold inject_fields, set_tag.
  destruct (d0 !! "0th") as [[t0|?]|] eqn:H0.
  - rewrite lookup_insert_eq. rewrite lookup_insert_ne by done.
    rewrite lookup_insert_ne by done. rewrite insert_insert_eq.
    destruct (d0 !! "Exif") as [[tE|?]|] eqn:HE.
    + split.
      * intros [= <-]. by exists t0, tE.
      * intros (t0' & tE' & [= <-] & [= <-] & ->). done.
    + split; [done|]. by intros (? & ? & _ & ? & _).
    + split; [done|]. by intros (? & ? & _ & ? & _).
  - split; [done|]. by intros (? & ? & ? & _).
  - split; [done|]. by intros (? & ? & ? & _).
Qed.

(** A run that succeeds: every step returned. *)
Lemma inject_exif_success (image_path : Path) (w w' : World) (image_id : string) :
  inject_exif image_path w = (Ok (true, image_id), w') ->
  exists data d blob,
    read_bytes image_path (fs w) = Ok data /\
    image_id = identifier data /\
    inject_fields (identifier data) (container image_path w) = Ok d /\
    piexif_dump d = Ok blob /\
    calls w' = calls w ++ calls_to_save image_path d blob.
Proof.
  intros Hinj. by_run image_path w; rewrite Hinj in Hrun; try discriminate.
  injection Hrun as -> ->. eauto 10.
Qed.

(** C1: the identifier of a successful run is ["sha256:"] followed by the
    first sixteen characters of the hexadecimal SHA-256 digest of the content
    the file had when the run started; these are sixteen lowercase
    hexadecimal digits; and the container that is serialized and saved holds
    the identifier, UTF-8 encoded, as the [UserComment] of the Exif
    directory. *)
Theorem inject_exif_identifier (image_path : Path) (w w' : World) (image_id : string) :
  inject_exif image_path w = (Ok (true, image_id), w') ->
  exists data d blob,
    fs w !! image_path = Some (File data) /\
    image_id = "sha256:" +:+ str_slice_to 16 (SHA256.hexdigest data) /\
    length (chars (str_slice_to 16 (SHA256.hexdigest data))) = 16%nat /\
    forallb is_lower_hex (chars (str_slice_to 16 (SHA256.hexdigest data))) = true /\
    get_tag "Exif" ExifIFD.UserComment d = Some (VBytes (encode_utf8 image_id)) /\
    piexif_dump d = Ok blob /\
    calls_since w w' =
      [CallLoad (path_str image_path); CallRead image_path; CallDump d;
       CallOpen image_path; CallSave image_path "jpeg" 70 blob].
Proof.
  intros (data & d & blob & Hread%read_bytes_Ok & -> & Hd & Hblob & Hcalls)%inject_exif_success.
  apply inject_fields_Ok in Hd as (t0 & tE & _ & _ & ->).
  destruct (fingerprint_shape data) as [Hlen Hhex].
  exists data. eexists. exists blob. repeat split; try done.
  - unfold get_tag. rewrite lookup_insert_eq. by rewrite lookup_insert_eq.
  - by apply calls_since_app.
Qed.

End Identifier.

Lemma inject_exif_identifier_witness :
  let w' := snd (@inject_exif sample_libs (photo "a_hu_1.jpg") sample_world) in
  exists data d blob,
    fs sample_world !! photo "a_hu_1.jpg" = Some (File data) /\
    "sha256:824cf919dd567ae2" = "sha256:" +:+ str_slice_to 16 (SHA256.hexdigest data) /\
    length (chars (str_slice_to 16 (SHA256.hexdigest data))) = 16%nat /\
    forallb is_lower_hex (chars (str_slice_to 16 (SHA256.hexdigest data))) = true /\
    get_tag "Exif" ExifIFD.UserComment d =
      Some (VBytes (encode_utf8 "sha256:824cf919dd567ae2")) /\
    @piexif_dump sample_libs d = Ok blob /\
    calls_since sample_world w' =
      [CallLoad (path_str (photo "a_hu_1.jpg")); CallRead (photo "a_hu_1.jpg");
       CallDump d; CallOpen (photo "a_hu_1.jpg");
       CallSave (photo "a_hu_1.jpg") "jpeg" 70 blob].
Proof.
  intros w'.
  apply (@inject_exif_identifier sample_libs (photo "a_hu_1.jpg") sample_world w').
  subst w'. vm_compute. reflexivity.
Defined.

(** ** Failures of one run *)

(** The calls of a run, once its last world is known. *)
Ltac calls_norm :=
  unfold calls_since, calls_to_save, log in *; cbn [calls fs stdout fst snd] in *;
  rewrite <- ?app_assoc in *; rewrite ?drop_app_length in *; cbn [app] in *.

Ltac break_ex :=
  repeat match goal with
         | H : ex _ |- _ => let x := fresh "x" in destruct H as [x H]
         | H : _ /\ _ |- _ => let H' := fresh "H" in destruct H as [H' H]
         end.

Section Failures.
Context {L : Libs}.

(** [inject_exif] returns: nothing it raises leaves it. *)
Lemma inject_exif_returns (image_path : Path) (w : World) :
  exists ok detail, fst (inject_exif image_path w) = Ok (ok, detail).
Proof. by_run image_path w; rewrite Hrun; eauto. Qed.

(** A run fails exactly when a step after the loading raises, and the detail
    is what [str] gives for the exception. *)
Lemma inject_exif_failure_iff (image_path : Path) (w : World) (detail : string) :
  fst (inject_exif image_path w) = Ok (false, detail) <->
  exists s e, raises_at s image_path w e /\ detail = exn_str e.
Proof.
  by_run image_path w; rewrite Hrun; cbn [fst]; split.
  all: try (intros [= <-]).
  all: try (intros [= ?]; discriminate).
  all: try (intros (s & e' & Hs & ->); destruct s; cbn [raises_at] in Hs;
            break_ex; congruence).
  - exists AtSave. eexists. split; [|reflexivity]. cbn [raises_at]. eauto 10.
  - exists AtOpen. eexists. split; [|reflexivity]. cbn [raises_at]. eauto 10.
  - exists AtDump. eexists. split; [|reflexivity]. cbn [raises_at]. eauto 10.
  - exists AtAssign. eexists. split; [|reflexivity]. cbn [raises_at]. eauto 10.
  - exists AtRead. eexists. split; [|reflexivity]. cbn [raises_at]. eauto 10.
Qed.

(** C3, as amended: an exception raised while hashing, assigning the fields,
    serializing, decoding or saving is caught for the one file and makes
    [inject_exif] return a failure whose detail is the text of the exception;
    [inject_exif] always returns; and these are the only failures, an
    exception of the loading alone being none of them. *)
Theorem per_file_failure (image_path : Path) (w : World) :
  (exists ok detail, fst (inject_exif image_path w) = Ok (ok, detail)) /\
  (forall s e, raises_at s image_path w e ->
     fst (inject_exif image_path w) = Ok (false, exn_str e)) /\
  (forall detail, fst (inject_exif image_path w) = Ok (false, detail) ->
     exists s e, raises_at s image_path w e /\ detail = exn_str e).
Proof.
  split; [apply inject_exif_returns|]. split.
  - intros s e Hs. apply inject_exif_failure_iff. eauto.
  - intros detail. apply inject_exif_failure_iff.
Qed.

(** C9: when [piexif.load] raises, whatever it raises, the handler of the
    loading step returns the container of four empty directories, and the run
    goes on to read the file for hashing: it is the rest of [inject_exif] on
    that container, so it fails only if a later step raises. *)
Theorem load_failure_absorbed (image_path : Path) (w : World) (e : exn) :
  piexif_load (path_str image_path) (fs w) = Raise e ->
  let w1 := log (CallLoad (path_str image_path)) w in
  load_or_new image_path w = (Ok empty_exif_dict, w1) /\
  (forall k, empty_exif_dict !! k =
             if bool_decide (k ∈ ["0th"; "Exif"; "GPS"; "1st"]) then Some (Ifd ∅)
             else None) /\
  inject_exif image_path w =
    try_except (inject_rest image_path empty_exif_dict)
               (fun e' => ret (false, exn_str e')) w1 /\
  (exists rest,
     calls_since w (snd (inject_exif image_path w)) =
     CallLoad (path_str image_path) :: CallRead image_path :: rest) /\
  (forall detail, fst (inject_exif image_path w) = Ok (false, detail) ->
     exists s e', raises_at s image_path w e' /\ detail = exn_str e').
Proof.
  intros Hload w1. repeat split.
  - unfold load_or_new, try_except, load, ret. by rewrite Hload.
  - intros k. unfold empty_exif_dict.
    destruct (decide (k = "0th")) as [->|]; [done|].
    destruct (decide (k = "Exif")) as [->|]; [done|].
    destruct (decide (k = "GPS")) as [->|]; [done|].
    destruct (decide (k = "1st")) as [->|]; [done|].
    rewrite !lookup_insert_ne, lookup_empty by done.
    rewrite bool_decide_eq_false_2; [done|].
    rewrite !elem_of_cons, elem_of_nil. tauto.
  - unfold inject_exif, inject_body, load_or_new, try_except, bind, load, ret.
    by rewrite Hload.
  - by_run image_path w; rewrite Hrun; calls_norm; eauto.
  - intros detail. apply inject_exif_failure_iff.
Qed.

(** C4: when a step before the save raises, the run fails without having
    called the save, and the file system, the file with it, is as it was. *)
Theorem failure_before_save_keeps_file (image_path : Path) (w : World)
        (s : step) (e : exn) :
  raises_at s image_path w e -> s <> AtSave ->
  let w' := snd (inject_exif image_path w) in
  fst (inject_exif image_path w) = Ok (false, exn_str e) /\
  existsb is_save (calls_since w w') = false /\
  fs w' = fs w /\
  fs w' !! image_path = fs w !! image_path.
Proof.
  intros Hs Hne w'.
  assert (Hfail : fst (inject_exif image_path w) = Ok (false, exn_str e)).
  { apply inject_exif_failure_iff. eauto. }
  split; [done|]. subst w'.
  destruct s; [| | | |done]; cbn [raises_at] in Hs;
    break_ex;
    by_run image_path w; try congruence;
    rewrite Hrun; calls_norm; done.
Qed.

End Failures.

(** C3 as stated fails: on the PNG stored as [c_hu_3.jpg], [piexif.load]
    raises, and [inject_exif] returns a success with the identifier. *)
Lemma load_exception_is_no_failure :
  @piexif_load sample_libs (path_str (photo "c_hu_3.jpg")) (fs sample_world) =
    Raise (Exn "InvalidImageDataError" "Given file is neither JPEG nor TIFF.") /\
  fst (@inject_exif sample_libs (photo "c_hu_3.jpg") sample_world) =
    Ok (true, "sha256:0f4636c78f65d363").
Proof. split; vm_compute; reflexivity. Qed.

Lemma load_failure_absorbed_witness :
  let image_path := photo "c_hu_3.jpg" in
  let w1 := log (CallLoad (path_str image_path)) sample_world in
  @load_or_new sample_libs image_path sample_world = (Ok empty_exif_dict, w1) /\
  (forall k, empty_exif_dict !! k =
             if bool_decide (k ∈ ["0th"; "Exif"; "GPS"; "1st"]) then Some (Ifd ∅)
             else None) /\
  @inject_exif sample_libs image_path sample_world =
    try_except (@inject_rest sample_libs image_path empty_exif_dict)
               (fun e' => ret (false, exn_str e')) w1 /\
  (exists rest,
     calls_since sample_world (snd (@inject_exif sample_libs image_path sample_world)) =
     CallLoad (path_str image_path) :: CallRead image_path :: rest) /\
  (forall detail,
     fst (@inject_exif sample_libs image_path sample_world) = Ok (false, detail) ->
     exists s e', @raises_at sample_libs s image_path sample_world e' /\
                  detail = exn_str e').
Proof.
  intros image_path.
  apply (@load_failure_absorbed sample_libs image_path sample_world
           (Exn "InvalidImageDataError" "Given file is neither JPEG nor TIFF.")).
  vm_compute. reflexivity.
Defined.

Lemma failure_before_save_keeps_file_witness :
  let image_path := photo "b_hu_2.jpg" in
  let e := Exn "UnidentifiedImageError" "cannot identify image file" in
  let w' := snd (@inject_exif sample_libs image_path sample_world) in
  fst (@inject_exif sample_libs image_path sample_world) = Ok (false, exn_str e) /\
  existsb is_save (calls_since sample_world w') = false /\
  fs w' = fs sample_world /\
  fs w' !! image_path = fs sample_world !! image_path.
Proof.
  intros image_path e.
  apply (@failure_before_save_keeps_file sample_libs image_path sample_world AtOpen e).
  - cbn [raises_at]. do 3 eexists. repeat split; vm_compute; reflexivity.
  - discriminate.
Defined.

(** ** The fields of the container *)

(** Membership in an explicit list of calls, case by case. *)
Ltac in_cases H :=
  cbn [In] in H;
  repeat (destruct H as [H|H]; [try discriminate H|]);
  try contradiction.

Section Fields.
Context {L : Libs}.

(** What the three assignments leave as they found it. *)
Lemma inject_fields_frame (image_id : string) (d0 d : ExifDict) :
  inject_fields image_id d0 = Ok d ->
  (forall ifd tag, ~ written_field ifd tag -> get_tag ifd tag d = get_tag ifd tag d0) /\
  (forall k, k <> "0th" -> k <> "Exif" -> d !! k = d0 !! k).
Proof.
  intros (t0 & tE & H0 & HE & ->)%inject_fields_Ok. split.
  - intros ifd tag Hw. unfold get_tag, written_field in *.
    destruct (decide (ifd = "Exif")) as [->|HnE].
    + rewrite lookup_insert_eq, HE.
      apply lookup_insert_ne. intros <-. tauto.
    + rewrite lookup_insert_ne by done.
      destruct (decide (ifd = "0th")) as [->|Hn0].
      * rewrite lookup_insert_eq, H0.
        rewrite !lookup_insert_ne; [done| |]; intros <-; tauto.
      * by rewrite lookup_insert_ne.
  - intros k Hk0 HkE. by rewrite !lookup_insert_ne.
Qed.

(** C2: when the container is loaded from the file, every container the run
    serializes has each field other than the Copyright and the Artist of the
    primary directory and the UserComment of the Exif directory as the loaded
    container has it, and so for what is not a directory (the thumbnail);
    the blob that is saved is the serialization of such a container; and
    when the file can be read and the loaded container has both directories,
    a container is serialized. *)
Theorem other_fields_preserved (image_path : Path) (w : World) (d0 : ExifDict) :
  piexif_load (path_str image_path) (fs w) = Ok d0 ->
  let cs := calls_since w (snd (inject_exif image_path w)) in
  (forall d, In (CallDump d) cs ->
     (forall ifd tag, ~ written_field ifd tag ->
        get_tag ifd tag d = get_tag ifd tag d0) /\
     (forall k, k <> "0th" -> k <> "Exif" -> d !! k = d0 !! k)) /\
  (forall path format quality blob,
     In (CallSave path format quality blob) cs ->
     exists d, In (CallDump d) cs /\ piexif_dump d = Ok blob) /\
  (forall data t0 tE,
     fs w !! image_path = Some (File data) ->
     d0 !! "0th" = Some (Ifd t0) -> d0 !! "Exif" = Some (Ifd tE) ->
     exists d, In (CallDump d) cs).
Proof.
  intros Hload cs. subst cs.
  assert (Hc : container image_path w = d0) by (unfold container; by rewrite Hload).
  split; [|split].
  - intros d Hin.
    by_run image_path w; rewrite Hrun in Hin; calls_norm; in_cases Hin.
    all: injection Hin as <-; rewrite Hc in *.
    all: eapply inject_fields_frame; eassumption.
  - intros path format quality blob Hin.
    by_run image_path w; rewrite Hrun in *; calls_norm; in_cases Hin.
    all: injection Hin as <- <- <- <-.
    all: eexists; split; [|eassumption]; cbn [In]; eauto.
  - intros data t0 tE Hfile%read_bytes_Ok H0 HE.
    assert (Hok : exists d, inject_fields (identifier data) d0 = Ok d)
      by (eexists; apply inject_fields_Ok; eauto).
    destruct Hok as [d Hok].
    by_run image_path w; rewrite Hrun; calls_norm; rewrite ?Hc in *.
    all: try congruence.
    all: eexists; cbn [In]; eauto.
Qed.

End Fields.

Lemma other_fields_preserved_witness :
  let image_path := photo "a_hu_1.jpg" in
  let d0 : ExifDict :=
    <["0th" := Ifd {[ Orientation := VInt 6 ]}]>
      (<["Exif" := Ifd ∅]> (<["GPS" := Ifd ∅]> (<["Interop" := Ifd ∅]>
      (<["1st" := Ifd ∅]> (<["thumbnail" := Thumbnail None]> ∅))))) in
  let cs := calls_since sample_world
              (snd (@inject_exif sample_libs image_path sample_world)) in
  (forall d, In (CallDump d) cs ->
     (forall ifd tag, ~ written_field ifd tag ->
        get_tag ifd tag d = get_tag ifd tag d0) /\
     (forall k, k <> "0th" -> k <> "Exif" -> d !! k = d0 !! k)) /\
  (forall path format quality blob,
     In (CallSave path format quality blob) cs ->
     exists d, In (CallDump d) cs /\ @piexif_dump sample_libs d = Ok blob) /\
  (forall data t0 tE,
     fs sample_world !! image_path = Some (File data) ->
     d0 !! "0th" = Some (Ifd t0) -> d0 !! "Exif" = Some (Ifd tE) ->
     exists d, In (CallDump d) cs).
Proof.
  intros image_path d0.
  apply (@other_fields_preserved sample_libs image_path sample_world d0).
  vm_compute. reflexivity.
Defined.

(** On the sample: the orientation that [a_hu_1.jpg] carries is in the
    container that is serialized. *)
Example orientation_kept :
  exists d,
    In (CallDump d)
       (calls (snd (@inject_exif sample_libs (photo "a_hu_1.jpg") sample_world))) /\
    get_tag "0th" Orientation d = Some (VInt 6).
Proof. eexists. split; [vm_compute; right; right; left; reflexivity|]. vm_compute. reflexivity. Qed.

(** ** The files the driver selects *)

Lemma fnmatch_star (pat s : list ascii) :
  fnmatch ("*"%char :: pat) s = true <->
  exists a b, s = a ++ b /\ fnmatch pat b = true.
Proof.
  cbn [fnmatch]. rewrite Ascii.eqb_refl.
  induction s as [|c s IH].
  - rewrite orb_false_r. split.
    + intros H. by exists [], [].
    + intros (a & b & Hab & H). symmetry in Hab.
      apply app_eq_nil in Hab as [-> ->]. done.
  - rewrite orb_true_iff, IH. split.
    + intros [H|(a & b & -> & H)].
      * by exists [], (c :: s).
      * by exists (c :: a), b.
    + intros ([|c' a] & b & Hab & H).
      * left. by rewrite Hab.
      * right. injection Hab as -> ->. by exists a, b.
Qed.

Lemma fnmatch_literal (c : ascii) (pat s : list ascii) :
  c <> "*"%char ->
  fnmatch (c :: pat) s = true <-> exists s', s = c :: s' /\ fnmatch pat s' = true.
Proof.
  intros Hc. cbn [fnmatch].
  destruct (Ascii.eqb c "*") eqn:E; [by apply Ascii.eqb_eq in E|].
  destruct s as [|c' s].
  - split; [done|]. by intros (? & ? & _).
  - rewrite andb_true_iff, Ascii.eqb_eq. split.
    + intros [-> H]. by exists s.
    + intros (s' & [= -> ->] & H). done.
Qed.

Lemma fnmatch_nil (s : list ascii) : fnmatch [] s = true <-> s = [].
Proof. destruct s; cbn; split; congruence. Qed.

(** The program's pattern, read as a split of the name. *)
Lemma fnmatch_hu_jpg (s : list ascii) :
  fnmatch (chars "*_hu_*.jpg") s = true <->
  exists a b, s = a ++ chars "_hu_" ++ b ++ chars ".jpg".
Proof.
  change (chars "*_hu_*.jpg") with
    ("*" :: "_" :: "h" :: "u" :: "_" :: "*" :: "." :: "j" :: "p" :: "g" :: [])%char.
  change (chars "_hu_") with ("_" :: "h" :: "u" :: "_" :: [])%char.
  change (chars ".jpg") with ("." :: "j" :: "p" :: "g" :: [])%char.
  rewrite fnmatch_star. split.
  - intros (a & b & -> & H).
    do 4 (apply fnmatch_literal in H as (? & -> & H); [|done]).
    apply fnmatch_star in H as (b & t & -> & H).
    do 4 (apply fnmatch_literal in H as (? & -> & H); [|done]).
    apply fnmatch_nil in H as ->. by exists a, b.
  - intros (a & b & ->). exists a. eexists. split; [reflexivity|].
    do 4 (apply fnmatch_literal; [done|]; eexists; split; [reflexivity|]).
    apply fnmatch_star. exists b. eexists. split; [reflexivity|].
    do 4 (apply fnmatch_literal; [done|]; eexists; split; [reflexivity|]).
    done.
Qed.

(** The infix and the extension share no character, so a name that has
    both has the infix before the extension. *)
Lemma infix_before_extension (s : list ascii) :
  (exists a b, s = a ++ chars "_hu_" ++ b) ->
  (exists z, s = z ++ chars ".jpg") ->
  exists a b, s = a ++ chars "_hu_" ++ b ++ chars ".jpg".
Proof.
  change (chars "_hu_") with ("_" :: "h" :: "u" :: "_" :: [])%char.
  change (chars ".jpg") with ("." :: "j" :: "p" :: "g" :: [])%char.
  intros (a & b & ->) (z & Hz). exists a.
  assert (Hrev : rev b ++ rev ("_" :: "h" :: "u" :: "_" :: [])%char ++ rev a =
                 rev ("." :: "j" :: "p" :: "g" :: [])%char ++ rev z).
  { rewrite <- !rev_app_distr, <- app_assoc. by rewrite Hz. }
  cbn [rev app] in Hrev.
  destruct (rev b) as [|c1 [|c2 [|c3 [|c4 t]]]] eqn:Hb; cbn [app] in Hrev;
    try discriminate Hrev.
  injection Hrev as -> -> -> -> _.
  exists (rev t). apply (f_equal (@rev ascii)) in Hb.
  rewrite rev_involutive in Hb. rewrite Hb. cbn [rev].
  by rewrite <- !app_assoc.
Qed.

Lemma matches_pattern_iff (name : string) :
  fnmatch (chars "*_hu_*.jpg") (chars name) = true <->
  has_infix "_hu_" name /\ ends_with ".jpg" name.
Proof.
  rewrite fnmatch_hu_jpg. unfold has_infix, ends_with. split.
  - intros (a & b & ->). split.
    + by exists a, (b ++ chars ".jpg").
    + exists (a ++ chars "_hu_" ++ b). by rewrite <- !app_assoc.
  - intros [Hi He]. by apply infix_before_extension.
Qed.




Lemma strip_prefix_Some (dir p q : Path) :
  strip_prefix dir p = Some q <-> p = dir ++ q.
Proof.
  revert p. induction dir as [|d dir IH]; intros p; cbn [strip_prefix app].
  - split; congruence.
  - destruct p as [|x p]; [split; discriminate|].
    destruct (decide (d = x)) as [->|Hne].
    + rewrite IH. split; congruence.
    + split; [discriminate|]. intros [= -> _]. done.
Qed.

Lemma child_name_Some (dir p : Path) (name : string) :
  child_name dir p = Some name <-> p = dir ++ [name].
Proof.
  unfold child_name. rewrite <- strip_prefix_Some.
  destruct (strip_prefix dir p) as [[|n [|]]|]; split; congruence.
Qed.

(** The entries of a directory are the paths one part longer that exist. *)
Lemma In_scandir (dir : Path) (files : FS) (name : string) :
  In name (scandir dir files) <-> is_Some (files !! (dir ++ [name])).
Proof.
  unfold scandir. rewrite <- list_elem_of_In, list_elem_of_omap. split.
  - intros ([p x] & Hin%elem_of_map_to_list & Hc%child_name_Some).
    cbn [fst] in Hc. subst p. eauto.
  - intros [x Hx]. exists (dir ++ [name], x). split.
    + by apply elem_of_map_to_list.
    + by apply child_name_Some.
Qed.

Lemma In_glob (dir : Path) (pattern : string) (files : FS) (p : Path) :
  In p (glob dir pattern files) <->
  path_is_dir dir files = true /\
  exists name, p = dir ++ [name] /\ is_Some (files !! p) /\
               fnmatch (chars pattern) (chars name) = true.
Proof.
  unfold glob. destruct (path_is_dir dir files).
  - rewrite in_map_iff. split.
    + intros (name & <- & [Hs Hm]%filter_In). split; [done|].
      exists name. by rewrite <- In_scandir.
    + intros (_ & name & -> & Hs & Hm). exists name. split; [done|].
      apply filter_In. by rewrite In_scandir.
  - split; [done|]. by intros [? _].
Qed.

Lemma In_sorted (paths : list Path) (p : Path) : In p (sorted paths) <-> In p paths.
Proof.
  unfold sorted. rewrite <- !list_elem_of_In.
  by rewrite (merge_sort_Permutation path_le paths).
Qed.

(** ** Text: code points, order, and what can be printed *)

Lemma string_of_chars (a b : string) : chars a = chars b -> a = b.
Proof.
  intros H. rewrite <- (string_of_list_ascii_of_string a),
    <- (string_of_list_ascii_of_string b). by f_equal.
Qed.

Lemma string_app_assoc (a b c : string) : (a +:+ b) +:+ c = a +:+ b +:+ c.
Proof. apply string_of_chars. by rewrite !chars_app, app_assoc. Qed.

Lemma escaped_surrogate (c : ascii) :
  (N_of_ascii c <? 0x80)%N = false -> is_surrogate (escape (N_of_ascii c)) = true.
Proof.
  intros H. apply N.ltb_ge in H. pose proof (N_ascii_bounded c).
  unfold is_surrogate, between, escape. apply andb_true_iff. split; apply N.leb_le; lia.
Qed.

Ltac step_clean Hclean IH' :=
  cbn [no_surrogate forallb] in Hclean;
  apply andb_true_iff in Hclean as [_ Hclean];
  cbn [app]; f_equal; apply IH'; [cbn; lia|exact Hclean].

(** Decoding goes through a concatenation whose first part is well-formed. *)
Lemma decode_app (a b : list ascii) :
  no_surrogate (decode a) = true -> decode (a ++ b) = decode a ++ decode b.
Proof.
  remember (length a) as n eqn:Hn. revert a Hn.
  induction n as [n IH] using lt_wf_ind. intros a -> Hclean.
  assert (IH' : forall a', (length a' < length a)%nat ->
                           no_surrogate (decode a') = true ->
                           decode (a' ++ b) = decode a' ++ decode b).
  { intros a' Hlt Hc. by apply (IH (length a')). }
  clear IH.
  destruct a as [|c0 r0]; [done|].
  cbn [decode app] in *. cbv zeta in *.
  destruct (N_of_ascii c0 <? 128)%N eqn:H0; [step_clean Hclean IH'|].
  pose proof (escaped_surrogate c0 H0) as Hs.
  assert (Hesc : forall l, no_surrogate (escape (N_of_ascii c0) :: l) = true -> False).
  { intros l Hc. cbn [no_surrogate forallb] in Hc. rewrite Hs in Hc. discriminate. }
  destruct r0 as [|c1 r1]; [by destruct (Hesc _ Hclean)|].
  cbn [app]. destruct (two_ok _ _); [step_clean Hclean IH'|].
  destruct r1 as [|c2 r2]; [by destruct (Hesc _ Hclean)|].
  cbn [app]. destruct (three_ok _ _ _); [step_clean Hclean IH'|].
  destruct r2 as [|c3 r3]; [by destruct (Hesc _ Hclean)|].
  cbn [app]. destruct (four_ok _ _ _ _); [step_clean Hclean IH'|].
  by destruct (Hesc _ Hclean).
Qed.

Lemma not_cont_ascii (c : ascii) : is_ascii c = true -> is_cont (N_of_ascii c) = false.
Proof.
  unfold is_ascii, is_cont, between. intros H%N.ltb_lt.
  apply andb_false_iff. left. apply N.leb_gt. lia.
Qed.

Lemma two_ok_ascii (b0 : N) (c : ascii) : is_ascii c = true -> two_ok b0 (N_of_ascii c) = false.
Proof. intros H. unfold two_ok. rewrite (not_cont_ascii c H). apply andb_false_r. Qed.

Lemma three_ok_ascii_2 (b0 b1 : N) (c : ascii) :
  is_ascii c = true -> three_ok b0 b1 (N_of_ascii c) = false.
Proof. intros H. unfold three_ok. rewrite (not_cont_ascii c H). apply andb_false_r. Qed.

Lemma three_ok_ascii_1 (b0 b2 : N) (c : ascii) :
  is_ascii c = true -> three_ok b0 (N_of_ascii c) b2 = false.
Proof.
  unfold is_ascii, three_ok, is_cont, between. intros H%N.ltb_lt.
  apply andb_false_iff. left.
  repeat (apply orb_false_iff; split); apply andb_false_iff; right;
    apply andb_false_iff; left; apply N.leb_gt; lia.
Qed.

Lemma four_ok_ascii_1 (b0 b2 b3 : N) (c : ascii) :
  is_ascii c = true -> four_ok b0 (N_of_ascii c) b2 b3 = false.
Proof.
  unfold is_ascii, four_ok, is_cont, between. intros H%N.ltb_lt.
  apply andb_false_iff. left. apply andb_false_iff. left.
  repeat (apply orb_false_iff; split); apply andb_false_iff; right;
    apply andb_false_iff; left; apply N.leb_gt; lia.
Qed.

Lemma four_ok_ascii_2 (b0 b1 b3 : N) (c : ascii) :
  is_ascii c = true -> four_ok b0 b1 (N_of_ascii c) b3 = false.
Proof.
  intros H. unfold four_ok. rewrite (not_cont_ascii c H).
  by rewrite andb_false_r.
Qed.

Lemma four_ok_ascii_3 (b0 b1 b2 : N) (c : ascii) :
  is_ascii c = true -> four_ok b0 b1 b2 (N_of_ascii c) = false.
Proof. intros H. unfold four_ok. rewrite (not_cont_ascii c H). apply andb_false_r. Qed.

(** Decoding goes through a concatenation whose second part starts with an
    ASCII character. *)
Lemma decode_app_ascii (a : list ascii) (c : ascii) (r : list ascii) :
  is_ascii c = true -> decode (a ++ c :: r) = decode a ++ decode (c :: r).
Proof.
  intros Hc.
  remember (length a) as n eqn:Hn. revert a Hn.
  induction n as [n IH] using lt_wf_ind. intros a ->.
  assert (IH' : forall a', (length a' < length a)%nat ->
                           decode (a' ++ c :: r) = decode a' ++ decode (c :: r)).
  { intros a' Hlt. by apply (IH (length a')). }
  clear IH.
  destruct a as [|c0 r0]; [done|].
  cbn [app]. cbn [decode]. cbv zeta. fold (decode (c :: r)).
  destruct (N_of_ascii c0 <? 128)%N eqn:H0.
  { cbn [app]. f_equal. apply IH'. cbn; lia. }
  destruct r0 as [|c1 r1].
  { cbn [app]. rewrite (two_ok_ascii _ c Hc).
    destruct r as [|c2 r2]; [done|].
    rewrite (three_ok_ascii_1 _ _ c Hc).
    destruct r2 as [|c3 r3]; [done|].
    by rewrite (four_ok_ascii_1 _ _ _ c Hc). }
  cbn [app]. destruct (two_ok _ _).
  { cbn [app]. f_equal. apply IH'. cbn; lia. }
  destruct r1 as [|c2 r2].
  { cbn [app]. rewrite (three_ok_ascii_2 _ _ c Hc).
    destruct r as [|c3 r3].
    - cbn [app]. f_equal. apply (IH' [c1]). cbn; lia.
    - rewrite (four_ok_ascii_2 _ _ _ c Hc).
      cbn [app]. f_equal. apply (IH' [c1]). cbn; lia. }
  cbn [app]. destruct (three_ok _ _ _).
  { cbn [app]. f_equal. apply IH'. cbn; lia. }
  destruct r2 as [|c3 r3].
  { cbn [app]. rewrite (four_ok_ascii_3 _ _ _ c Hc).
    cbn [app]. f_equal. apply (IH' [c1; c2]). cbn; lia. }
  cbn [app]. destruct (four_ok _ _ _ _).
  { cbn [app]. f_equal. apply IH'. cbn; lia. }
  cbn [app]. f_equal. apply (IH' (c1 :: c2 :: c3 :: r3)). cbn; lia.
Qed.

Lemma code_points_app_l (a b : string) :
  encodable a = true -> code_points (a +:+ b) = code_points a ++ code_points b.
Proof.
  intros H. unfold code_points. change list_ascii_of_string with chars.
  rewrite chars_app. by apply decode_app.
Qed.

Lemma code_points_app_r (a b : string) :
  starts_plain b = true -> code_points (a +:+ b) = code_points a ++ code_points b.
Proof.
  intros H. unfold code_points. change list_ascii_of_string with chars.
  rewrite chars_app. destruct b as [|c b]; cbn [chars list_ascii_of_string].
  - by rewrite !app_nil_r.
  - by apply decode_app_ascii.
Qed.

Lemma no_surrogate_app (k l : list N) :
  no_surrogate (k ++ l) = no_surrogate k && no_surrogate l.
Proof. apply forallb_app. Qed.

Lemma encodable_app (a b : string) :
  encodable a = true -> encodable b = true -> encodable (a +:+ b) = true.
Proof.
  intros Ha Hb. unfold encodable. rewrite (code_points_app_l a b Ha), no_surrogate_app.
  unfold encodable in Ha, Hb. by rewrite Ha, Hb.
Qed.

(** ASCII text is its own list of code points. *)
Lemma decode_plain (l : list ascii) :
  forallb is_ascii l = true -> decode l = map N_of_ascii l.
Proof.
  induction l as [|c l IH]; [done|]. cbn [forallb]. intros [Hc Hl]%andb_true_iff.
  cbn [decode map]. cbv zeta. unfold is_ascii in Hc. rewrite Hc. by rewrite IH.
Qed.

Lemma plain_encodable (s : string) : plain s = true -> encodable s = true.
Proof.
  unfold plain, encodable, code_points. intros H. rewrite (decode_plain _ H).
  induction (list_ascii_of_string s) as [|c l IH]; [done|].
  cbn [forallb] in H. apply andb_true_iff in H as [Hc Hl].
  cbn [map no_surrogate forallb]. fold (no_surrogate (map N_of_ascii l)).
  rewrite (IH Hl), andb_true_r. unfold is_ascii in Hc. apply N.ltb_lt in Hc.
  unfold is_surrogate, between. apply negb_true_iff, andb_false_iff. left.
  apply N.leb_gt. lia.
Qed.

Lemma py_len_plain (s : string) : plain s = true -> py_len s = length (chars s).
Proof.
  unfold plain, py_len, code_points. intros H.
  by rewrite (decode_plain _ H), length_map.
Qed.

Lemma py_len_app_l (a b : string) :
  encodable a = true -> py_len (a +:+ b) = (py_len a + py_len b)%nat.
Proof. intros H. unfold py_len. by rewrite code_points_app_l, length_app. Qed.

Lemma plain_app (a b : string) : plain (a +:+ b) = plain a && plain b.
Proof.
  unfold plain. change list_ascii_of_string with chars.
  by rewrite chars_app, forallb_app.
Qed.

Lemma plain_spaces (n : nat) : plain (spaces n) = true.
Proof.
  unfold plain, spaces. rewrite list_ascii_of_string_of_list_ascii.
  induction n as [|n IH]; [done|]. cbn [repeat forallb]. by rewrite IH.
Qed.

Lemma starts_plain_spaces (n : nat) : starts_plain (spaces n) = true.
Proof. by destruct n. Qed.

Lemma py_len_spaces (n : nat) : py_len (spaces n) = n.
Proof.
  rewrite py_len_plain by apply plain_spaces.
  unfold spaces. by rewrite chars_of_list, repeat_length.
Qed.

Lemma plain_pretty_N_go (x : N) (s : string) :
  plain s = true -> plain (pretty_N_go x s) = true.
Proof.
  revert s. induction (N.lt_wf_0 x) as [x _ IH]; intros s Hs.
  destruct (decide (x = 0%N)) as [->|Hx]; [by rewrite pretty_N_go_0|].
  rewrite pretty_N_go_step by lia. apply IH.
  - apply N.div_lt; lia.
  - unfold plain in *. cbn [list_ascii_of_string forallb]. rewrite Hs, andb_true_r.
    unfold pretty_N_char. by repeat case_match.
Qed.

Lemma plain_pretty_N (x : N) : plain (pretty x) = true.
Proof.
  unfold pretty, pretty_N. case_decide; [done|]. by apply plain_pretty_N_go.
Qed.

Lemma plain_pretty (z : Z) : plain (pretty z) = true.
Proof.
  destruct z as [|x|x]; unfold pretty, pretty_Z; [done| |].
  - apply (plain_pretty_N (N.pos x)).
  - rewrite plain_app. cbn [andb]. apply (plain_pretty_N (N.pos x)).
Qed.

Lemma plain_lower_hex (l : list ascii) :
  forallb is_lower_hex l = true -> forallb is_ascii l = true.
Proof.
  induction l as [|c l IH]; [done|]. cbn [forallb]. intros [Hc Hl]%andb_true_iff.
  rewrite (IH Hl), andb_true_r. unfold is_lower_hex in Hc.
  apply existsb_exists in Hc as (x & Hin & ->%Ascii.eqb_eq).
  cbn in Hin. by repeat (destruct Hin as [<-|Hin]; [done|]).
Qed.

Lemma plain_identifier (data : list byte) : plain (identifier data) = true.
Proof.
  unfold identifier. rewrite plain_app. cbn [andb].
  apply plain_lower_hex, fingerprint_shape.
Qed.

(** The decoder, the order and the error of [print] on sample texts: two
    characters of two and four bytes; a byte that is no UTF-8; an overlong
    form; an encoded surrogate; a sequence cut short. *)
Example code_points_samples :
  code_points "é📸" = [233; 128248]%N /\
  code_points (String "255" "a") = [56575; 97]%N /\
  code_points (String "192" (String "128" EmptyString)) = [56512; 56448]%N /\
  code_points (String "237" (String "160" (String "128" EmptyString)))
    = [56557; 56480; 56448]%N /\
  code_points (String "226" (String "130" "a")) = [56546; 56450; 97]%N.
Proof. repeat split. Qed.

Example str_leb_samples :
  str_leb "a_hu_1.jpg" "b_hu_2.jpg" = true /\
  str_leb (String "255" "_hu_1.jpg") "📸_hu_2.jpg" = true /\
  str_leb "📸_hu_2.jpg" (String "255" "_hu_1.jpg") = false /\
  str_leb "z" (String "255" EmptyString) = true.
Proof. repeat split. Qed.

Example encode_error_samples :
  encode_error 0 (code_points "✓ é") = None /\
  encode_error 0 (code_points (String "a" (String "255" (String "254" "b")))) =
    Some (Exn "UnicodeEncodeError"
              "'utf-8' codec can't encode characters in position 1-2: surrogates not allowed").
Proof. split; vm_compute; reflexivity. Qed.

Example py_len_samples :
  py_len "📸_hu_2.jpg" = 10%nat /\ py_len (String "255" "_hu_1.jpg") = 10%nat /\
  py_len (fmt_ljust40 "é") = 40%nat.
Proof. repeat split. Qed.

(** The order of sequences over a total order is a total order. *)
Section SeqOrder.
Context {A : Type} `{EqDecision A} (leb : A -> A -> bool).
Hypothesis leb_total : forall a b, leb a b = true \/ leb b a = true.
Hypothesis leb_antisym : forall a b, leb a b = true -> leb b a = true -> a = b.
Hypothesis leb_trans : forall a b c, leb a b = true -> leb b c = true -> leb a c = true.


Lemma seq_leb_total (p q : list A) : seq_leb leb p q = true \/ seq_leb leb q p = true.
Proof.
  revert q. induction p as [|a p IH]; intros [|b q]; cbn; auto.
  destruct (decide (a = b)) as [->|Hne].
  - rewrite decide_True by done. apply IH.
  - rewrite decide_False by congruence. apply leb_total.
Qed.

Lemma seq_leb_antisym (p q : list A) :
  seq_leb leb p q = true -> seq_leb leb q p = true -> p = q.
Proof.
  revert q. induction p as [|a p IH]; intros [|b q]; cbn; try done.
  destruct (decide (a = b)) as [->|Hne].
  - rewrite decide_True by done. intros H1 H2. f_equal. by apply IH.
  - rewrite decide_False by congruence. intros H1 H2.
    destruct Hne. by apply leb_antisym.
Qed.

Lemma seq_leb_trans (p q r : list A) :
  seq_leb leb p q = true -> seq_leb leb q r = true -> seq_leb leb p r = true.
Proof.
  revert q r. induction p as [|a p IH]; intros [|b q] [|c r]; cbn; try done.
  destruct (decide (a = b)) as [->|Hab], (decide (b = c)) as [->|Hbc].
  - apply IH.
  - done.
  - rewrite decide_False by done. done.
  - intros H1 H2. destruct (decide (a = c)) as [->|Hac].
    + destruct Hbc. symmetry. by apply leb_antisym.
    + by apply (leb_trans a b c).
Qed.


End SeqOrder.

Lemma N_leb_total (a b : N) : (a <=? b)%N = true \/ (b <=? a)%N = true.
Proof. rewrite !N.leb_le. lia. Qed.

Lemma N_leb_antisym (a b : N) : (a <=? b)%N = true -> (b <=? a)%N = true -> a = b.
Proof. rewrite !N.leb_le. lia. Qed.

Lemma N_leb_trans (a b c : N) :
  (a <=? b)%N = true -> (b <=? c)%N = true -> (a <=? c)%N = true.
Proof. rewrite !N.leb_le. lia. Qed.

(** The order of paths is a total preorder; on the entries of one directory
    it is the order of the names. *)
Global Instance path_le_total : Total path_le.
Proof.
  intros p q. unfold path_le, parts_leb.
  destruct (seq_leb_total (seq_leb N.leb) (seq_leb_total N.leb N_leb_total)
              (map code_points p) (map code_points q)) as [->| ->]; [by left|by right].
Qed.

Global Instance path_le_trans : Transitive path_le.
Proof.
  intros p q r. unfold path_le, parts_leb. intros H1%Is_true_true H2%Is_true_true.
  apply Is_true_true.
  apply (seq_leb_trans (seq_leb N.leb)
           (seq_leb_antisym N.leb N_leb_antisym)
           (seq_leb_trans N.leb N_leb_antisym N_leb_trans) _ _ _ H1 H2).
Qed.




Example driver_selects_sample :
  sorted (glob PHOTOS_DIR "*_hu_*.jpg" sample_fs) =
  [photo "a_hu_1.jpg"; photo "b_hu_2.jpg"; photo "c_hu_3.jpg"].
Proof. vm_compute. reflexivity. Qed.

(** ** Printing *)

Lemma encode_error_None (pos : Z) (cps : list N) :
  no_surrogate cps = true -> encode_error pos cps = None.
Proof.
  revert pos. induction cps as [|c cps IH]; intros pos; [done|].
  cbn [no_surrogate forallb encode_error]. intros [Hc H]%andb_true_iff.
  apply negb_true_iff in Hc. rewrite Hc. by apply IH.
Qed.

Lemma encode_error_Some (pos : Z) (cps : list N) :
  no_surrogate cps = false ->
  exists e, encode_error pos cps = Some e /\ exn_class e = "UnicodeEncodeError".
Proof.
  revert pos. induction cps as [|c cps IH]; intros pos; [done|].
  cbn [no_surrogate forallb encode_error].
  destruct (is_surrogate c); cbn [negb andb].
  - intros _. eexists. split; reflexivity.
  - apply IH.
Qed.

Lemma print_Ok (s : string) (w : World) :
  encodable s = true ->
  print s w = (Ok tt, mkWorld (fs w) (calls w) (stdout w ++ [s])).
Proof. intros H. unfold print. by rewrite encode_error_None. Qed.

Lemma print_Raise (s : string) (w : World) :
  encodable s = false ->
  exists e, print s w = (Raise e, w) /\ exn_class e = "UnicodeEncodeError".
Proof.
  intros H. unfold print. destruct (encode_error_Some 0 _ H) as (e & -> & He). eauto.
Qed.

(** ** The lines

    A per-file line is a head, the name padded with spaces, a label, and the
    identifier or the error; its code points are those of the parts, whatever
    the name and the detail hold. *)
Lemma line_code_points (head name label result : string) (k : nat) :
  encodable head = true -> plain label = true ->
  starts_plain (label +:+ result) = true ->
  code_points (head +:+ (name +:+ spaces k) +:+ label +:+ result) =
  code_points head ++ code_points name ++ code_points (spaces k)
    ++ code_points label ++ code_points result.
Proof.
  intros Hh Hl Hs.
  rewrite (code_points_app_l head) by done.
  rewrite (code_points_app_r (name +:+ spaces k)) by done.
  rewrite (code_points_app_r name) by apply starts_plain_spaces.
  rewrite (code_points_app_l label) by (by apply plain_encodable).
  by rewrite <- !app_assoc.
Qed.

Lemma line_encodable (head name label result : string) (k : nat) :
  encodable head = true -> plain label = true ->
  starts_plain (label +:+ result) = true ->
  encodable (head +:+ (name +:+ spaces k) +:+ label +:+ result) =
  encodable name && encodable result.
Proof.
  intros Hh Hl Hs. unfold encodable at 1.
  rewrite line_code_points by done. rewrite !no_surrogate_app.
  pose proof (plain_encodable _ (plain_spaces k)) as Hk.
  pose proof (plain_encodable _ Hl) as Hl'.
  unfold encodable in *. by rewrite Hh, Hk, Hl'.
Qed.

Lemma line_py_len (head name label result : string) (k : nat) :
  encodable head = true -> plain label = true ->
  starts_plain (label +:+ result) = true ->
  py_len (head +:+ (name +:+ spaces k) +:+ label +:+ result) =
  (py_len head + (py_len name + k) + py_len label + py_len result)%nat.
Proof.
  intros Hh Hl Hs. unfold py_len at 1.
  rewrite line_code_points by done. rewrite !length_app.
  fold (py_len head) (py_len name) (py_len (spaces k)) (py_len label) (py_len result).
  rewrite py_len_spaces. lia.
Qed.

Lemma fmt_2d_plain (idx : Z) : plain (fmt_2d idx) = true.
Proof. unfold fmt_2d. cbv zeta. by rewrite plain_app, plain_spaces, plain_pretty. Qed.

Lemma head_encodable (glyph : string) (idx : Z) (total : nat) :
  encodable glyph = true ->
  encodable (glyph +:+ fmt_2d idx +:+ "/" +:+ pretty (Z.of_nat total) +:+ "] ") = true.
Proof.
  intros Hg. apply encodable_app; [done|]. apply plain_encodable.
  by rewrite !plain_app, fmt_2d_plain, plain_pretty.
Qed.

Lemma head_py_len (glyph : string) (idx : Z) (total : nat) :
  encodable glyph = true ->
  py_len (glyph +:+ fmt_2d idx +:+ "/" +:+ pretty (Z.of_nat total) +:+ "] ") =
  (py_len glyph + Nat.max 2 (py_len (pretty idx)) + 1
   + py_len (pretty (Z.of_nat total)) + 2)%nat.
Proof.
  intros Hg. rewrite (py_len_app_l glyph) by done.
  rewrite (py_len_app_l (fmt_2d idx)) by apply plain_encodable, fmt_2d_plain.
  rewrite (py_len_app_l "/") by done.
  rewrite (py_len_app_l (pretty (Z.of_nat total))) by apply plain_encodable, plain_pretty.
  unfold fmt_2d. cbv zeta.
  rewrite (py_len_app_l (spaces _)) by apply plain_encodable, plain_spaces.
  rewrite py_len_spaces.
  change (py_len "/") with 1%nat. change (py_len "] ") with 2%nat. lia.
Qed.

Lemma line_ok_split (idx : Z) (total : nat) (name result : string) :
  line_ok idx total name result =
  ("✓ [" +:+ fmt_2d idx +:+ "/" +:+ pretty (Z.of_nat total) +:+ "] ")
    +:+ (name +:+ spaces (40 - py_len name)) +:+ " ID: " +:+ result.
Proof. unfold line_ok, fmt_ljust40. by rewrite !string_app_assoc. Qed.

Lemma line_failed_split (idx : Z) (total : nat) (name result : string) :
  line_failed idx total name result =
  ("✗ [" +:+ fmt_2d idx +:+ "/" +:+ pretty (Z.of_nat total) +:+ "] ")
    +:+ (name +:+ spaces (40 - py_len name)) +:+ " Error: " +:+ result.
Proof. unfold line_failed, fmt_ljust40. by rewrite !string_app_assoc. Qed.

(** A per-file line can be printed exactly when the name and the identifier
    or error can. *)
Lemma line_ok_encodable (idx : Z) (total : nat) (name result : string) :
  encodable (line_ok idx total name result) = encodable name && encodable result.
Proof.
  rewrite line_ok_split. apply line_encodable; [|done|done].
  by apply head_encodable.
Qed.

Lemma line_failed_encodable (idx : Z) (total : nat) (name result : string) :
  encodable (line_failed idx total name result) = encodable name && encodable result.
Proof.
  rewrite line_failed_split. apply line_encodable; [|done|done].
  by apply head_encodable.
Qed.

Lemma msg_found_encodable (n : nat) : encodable (msg_found n) = true.
Proof.
  unfold msg_found. apply encodable_app; [done|]. apply plain_encodable.
  by rewrite !plain_app, plain_pretty.
Qed.

Lemma line_completed_encodable (success : Z) (total : nat) (failed : Z) :
  encodable (line_completed success total failed) = true.
Proof.
  unfold line_completed.
  repeat (apply encodable_app; [first [done | apply plain_encodable, plain_pretty]|]).
  done.
Qed.

Lemma rule70_encodable : encodable rule70 = true.
Proof. vm_compute. reflexivity. Qed.

Lemma rule70_newline_encodable : encodable (newline +:+ rule70) = true.
Proof. vm_compute. reflexivity. Qed.

Lemma report_encodable (total : nat) (idx : Z) (files : list Path)
      (outcomes : list (bool * string)) :
  forallb (fun p => encodable (path_name p)) files = true ->
  forallb (fun r => encodable (snd r)) outcomes = true ->
  forallb encodable (report total idx files outcomes) = true.
Proof.
  revert idx outcomes. induction files as [|p files IH]; intros idx [|r outcomes];
    cbn [report forallb]; try done.
  intros [Hp Hf]%andb_true_iff [Hr Ho]%andb_true_iff.
  rewrite (IH _ _ Hf Ho), andb_true_r.
  destruct (fst r); [rewrite line_ok_encodable|rewrite line_failed_encodable];
    by rewrite Hp, Hr.
Qed.

(** ** The loop of the driver *)

Section Driver.
Context {L : Libs}.

(** A run reads the file system only: the calls it adds and what it leaves
    do not depend on the calls made before nor on what was printed. *)
Lemma inject_exif_frame (image_path : Path) (w : World) :
  let w0 := mkWorld (fs w) [] [] in
  inject_exif image_path w =
  (fst (inject_exif image_path w0),
   mkWorld (fs (snd (inject_exif image_path w0)))
           (calls w ++ calls (snd (inject_exif image_path w0)))
           (stdout w)).
Proof.
  intros w0.
  pose proof (inject_exif_run image_path w) as Hrun.
  pose proof (inject_exif_run image_path w0) as Hrun0.
  subst w0. cbv zeta in Hrun, Hrun0. unfold container in Hrun, Hrun0.
  cbn [fs calls stdout] in Hrun0.
  repeat match type of Hrun with
         | match ?x with _ => _ end => destruct x
         end;
    rewrite Hrun, Hrun0; calls_norm; reflexivity.
Qed.

Lemma inject_exif_Ok (image_path : Path) (w : World) :
  exists r files cs,
    inject_exif image_path w = (Ok r, mkWorld files (calls w ++ cs) (stdout w)) /\
    loads cs = [path_str image_path].
Proof.
  by_run image_path w; rewrite Hrun; unfold log, calls_to_save; cbn [fs calls stdout];
    rewrite <- ?app_assoc; do 3 eexists; (split; [reflexivity|reflexivity]).
Qed.

Lemma inject_exif_stdout (image_path : Path) (w : World) (out : list string) :
  inject_exif image_path (mkWorld (fs w) (calls w) out) =
  (fst (inject_exif image_path w),
   mkWorld (fs (snd (inject_exif image_path w)))
           (calls (snd (inject_exif image_path w))) out).
Proof.
  rewrite (inject_exif_frame image_path w).
  rewrite (inject_exif_frame image_path (mkWorld (fs w) (calls w) out)).
  reflexivity.
Qed.

Lemma inject_all_stdout (files : list Path) (w : World) (out : list string) :
  inject_all files (mkWorld (fs w) (calls w) out) =
  (fst (inject_all files w),
   mkWorld (fs (snd (inject_all files w))) (calls (snd (inject_all files w))) out).
Proof.
  revert w. induction files as [|p files IH]; intros w; cbn [inject_all].
  - reflexivity.
  - rewrite inject_exif_stdout.
    destruct (inject_exif p w) as [[r|e] w1]; cbn [fst snd]; [|reflexivity].
    rewrite IH. destruct (inject_all files w1) as [rs w2]. reflexivity.
Qed.

(** The outcomes of the files: one each, with one call of [piexif.load] per
    file, in the order of the files. *)
Lemma inject_all_shape (files : list Path) (w : World) :
  length (fst (inject_all files w)) = length files /\
  stdout (snd (inject_all files w)) = stdout w /\
  exists cs, calls (snd (inject_all files w)) = calls w ++ cs /\
             loads cs = map path_str files.
Proof.
  revert w. induction files as [|p files IH]; intros w; cbn [inject_all].
  - repeat split. exists []. by rewrite app_nil_r.
  - destruct (inject_exif_Ok p w) as (r & files1 & cs1 & -> & Hl1).
    destruct (IH (mkWorld files1 (calls w ++ cs1) (stdout w))) as (Hlen & Hout & cs & Hc & Hl).
    destruct (inject_all files _) as [rs w2]. cbn [fst snd length map] in *.
    repeat split; [by rewrite Hlen|done|].
    exists (cs1 ++ cs). split; [by rewrite Hc, app_assoc|].
    unfold loads in *. by rewrite omap_app, Hl1, Hl.
Qed.

Lemma inject_all_app (l1 l2 : list Path) (w : World) :
  inject_all (l1 ++ l2) w =
  (fst (inject_all l1 w) ++ fst (inject_all l2 (snd (inject_all l1 w))),
   snd (inject_all l2 (snd (inject_all l1 w)))).
Proof.
  revert w. induction l1 as [|p l1 IH]; intros w; cbn [app inject_all].
  - cbn [fst snd app]. by destruct (inject_all l2 w).
  - destruct (inject_exif_Ok p w) as (r & files1 & cs1 & -> & _).
    rewrite IH. destruct (inject_all l1 _) as [o1 w1]. reflexivity.
Qed.

(** The identifier of a success is plain text. *)
Lemma inject_all_ids (files : list Path) (w : World) (r : bool * string) :
  In r (fst (inject_all files w)) -> fst r = true -> plain (snd r) = true.
Proof.
  revert w. induction files as [|p files IH]; intros w; cbn [inject_all]; [done|].
  destruct (inject_exif p w) as [[r1|e] w1] eqn:Hr; [|done].
  specialize (IH w1). destruct (inject_all files w1) as [rs w2]. cbn [fst In] in *.
  intros [<-|Hin] Hok; [|by apply IH].
  destruct r1 as [ok image_id]. cbn [fst snd] in *. subst ok.
  apply inject_exif_success in Hr as (data & _ & _ & _ & -> & _).
  apply plain_identifier.
Qed.

Lemma successes_cons (r : bool * string) (rs : list (bool * string)) :
  successes (r :: rs) = (if fst r then 1 else 0) + successes rs.
Proof. unfold successes. cbn [List.filter]. destruct (fst r); cbn [length]; lia. Qed.

Lemma failures_cons (r : bool * string) (rs : list (bool * string)) :
  failures (r :: rs) = (if fst r then 0 else 1) + failures rs.
Proof. unfold failures. cbn [List.filter]. destruct (fst r); cbn [negb length]; lia. Qed.

Lemma tally_total (rs : list (bool * string)) :
  0 <= successes rs /\ 0 <= failures rs /\
  successes rs + failures rs = Z.of_nat (length rs).
Proof.
  induction rs as [|r rs IH].
  - unfold successes, failures. cbn. lia.
  - rewrite successes_cons, failures_cons. cbn [length]. destruct (fst r); lia.
Qed.


Lemma printable_run_app (l1 l2 : list Path) (w : World) :
  printable_run (l1 ++ l2) w =
  printable_run l1 w && printable_run l2 (snd (inject_all l1 w)).
Proof.
  unfold printable_run. rewrite inject_all_app. cbn [fst].
  rewrite !forallb_app. by repeat (destruct (forallb _ _)).
Qed.

Lemma printable_report (total : nat) (idx : Z) (files : list Path) (w : World) :
  printable_run files w = true ->
  forallb encodable (report total idx files (fst (inject_all files w))) = true.
Proof.
  unfold printable_run. intros [Hn Hd]%andb_true_iff.
  apply report_encodable; [done|].
  apply forallb_forall. intros r Hin.
  rewrite forallb_forall in Hd. specialize (Hd r Hin).
  destruct (fst r) eqn:Hok; [|done].
  apply plain_encodable. by apply (inject_all_ids files w).
Qed.

(** The loop, by the outcomes of the files, when every line can be printed. *)
Lemma process_spec (total : nat) (files : list Path) (idx success failed : Z) (w : World) :
  forallb encodable (report total idx files (fst (inject_all files w))) = true ->
  process total files idx success failed w =
  (Ok (success + successes (fst (inject_all files w)),
       failed + failures (fst (inject_all files w))),
   mkWorld (fs (snd (inject_all files w))) (calls (snd (inject_all files w)))
           (stdout w ++ report total idx files (fst (inject_all files w)))).
Proof.
  revert idx success failed w.
  induction files as [|p files IH]; intros idx success failed w;
    cbn [process inject_all].
  - intros _. unfold ret, successes, failures. cbn. rewrite app_nil_r, !Z.add_0_r.
    by destruct w.
  - unfold bind at 1.
    destruct (inject_exif_Ok p w) as (r & files1 & cs1 & Hr & _). rewrite Hr.
    set (w1 := mkWorld files1 (calls w ++ cs1) (stdout w)).
    destruct (inject_all files w1) as [rs w2] eqn:Hall. cbn [fst snd].
    rewrite successes_cons, failures_cons. cbn [report forallb].
    intros [Hline Hrest]%andb_true_iff.
    assert (Hnext : forall out,
               forallb encodable
                 (report total (idx + 1) files
                    (fst (inject_all files (mkWorld (fs w1) (calls w1) out)))) = true).
    { intros out. by rewrite inject_all_stdout, Hall. }
    destruct (fst r); unfold bind; rewrite (print_Ok _ _ Hline);
      rewrite (IH _ _ _ _ (Hnext _));
      rewrite inject_all_stdout, Hall; cbn [fst snd fs calls stdout];
      rewrite <- app_assoc; cbn [app]; do 3 f_equal; lia.
Qed.

(** The loop returns only when every line could be printed. *)
Lemma process_Ok_printable (total : nat) (files : list Path) (idx success failed : Z)
      (w w' : World) (counts : Z * Z) :
  process total files idx success failed w = (Ok counts, w') ->
  forallb encodable (report total idx files (fst (inject_all files w))) = true.
Proof.
  revert idx success failed w.
  induction files as [|p files IH]; intros idx success failed w;
    cbn [process inject_all]; [done|].
  unfold bind at 1.
  destruct (inject_exif_Ok p w) as (r & files1 & cs1 & Hr & _). rewrite Hr.
  set (w1 := mkWorld files1 (calls w ++ cs1) (stdout w)).
  destruct (inject_all files w1) as [rs w2] eqn:Hall. cbn [fst report forallb].
  assert (Hstep : forall line s' f',
             (let* _ := print line in process total files (idx + 1) s' f') w1 =
               (Ok counts, w') ->
             encodable line = true /\
             forallb encodable (report total (idx + 1) files rs) = true).
  { intros line s' f' Hb. unfold bind in Hb. destruct (encodable line) eqn:He.
    - rewrite (print_Ok _ _ He) in Hb. apply IH in Hb.
      rewrite inject_all_stdout, Hall in Hb. done.
    - destruct (print_Raise line w1 He) as (e & Hp & _). rewrite Hp in Hb.
      discriminate. }
  destruct (fst r); intros [-> ->]%Hstep; done.
Qed.

(** The loop in general: it stops after some of the files, at a line that
    could not be printed or at the end. *)
Lemma process_any (total : nat) (files : list Path) (idx success failed : Z) (w : World) :
  exists k r out,
    process total files idx success failed w =
    (r, mkWorld (fs (snd (inject_all (take k files) w)))
                (calls (snd (inject_all (take k files) w))) out).
Proof.
  revert idx success failed w.
  induction files as [|p files IH]; intros idx success failed w.
  - exists 0%nat, (Ok (success, failed)), (stdout w). cbn. unfold ret. by destruct w.
  - cbn [process]. unfold bind at 1.
    destruct (inject_exif_Ok p w) as (r & files1 & cs1 & Hr & _). rewrite Hr.
    set (w1 := mkWorld files1 (calls w ++ cs1) (stdout w)).
    assert (Hline : forall line s' f',
               exists k r' out,
                 (let* _ := print line in process total files (idx + 1) s' f') w1 =
                 (r', mkWorld (fs (snd (inject_all (take k (p :: files)) w)))
                              (calls (snd (inject_all (take k (p :: files)) w))) out)).
    { intros line s' f'. unfold bind. destruct (encodable line) eqn:He.
      - rewrite (print_Ok _ _ He).
        destruct (IH (idx + 1) s' f' (mkWorld (fs w1) (calls w1) (stdout w1 ++ [line])))
          as (k & r' & out & Hk).
        rewrite Hk, inject_all_stdout. cbn [snd fs calls].
        exists (S k), r', out. cbn [take inject_all]. rewrite Hr. fold w1.
        by destruct (inject_all (take k files) w1).
      - destruct (print_Raise line w1 He) as (e & -> & _).
        exists 1%nat, (Raise e), (stdout w1). cbn [take inject_all]. rewrite Hr.
        reflexivity. }
    destruct (fst r); apply Hline.
Qed.

Lemma process_app (total : nat) (l1 l2 : list Path) (idx success failed : Z) (w : World) :
  process total (l1 ++ l2) idx success failed w =
  match process total l1 idx success failed w with
  | (Ok counts, w1) =>
      process total l2 (idx + Z.of_nat (length l1)) (fst counts) (snd counts) w1
  | (Raise e, w1) => (Raise e, w1)
  end.
Proof.
  revert idx success failed w.
  induction l1 as [|p l1 IH]; intros idx success failed w; cbn [app process length].
  - unfold ret. cbn [fst snd]. by rewrite Z.add_0_r.
  - unfold bind. destruct (inject_exif p w) as [[r|e] w1]; [|reflexivity].
    destruct (fst r);
      (match goal with |- context [print ?s w1] => destruct (print s w1) as [[[]|e] w2] end;
       [|reflexivity]);
      rewrite IH;
      replace (idx + 1 + Z.of_nat (length l1)) with (idx + Z.of_nat (S (length l1)))
        by lia; reflexivity.
Qed.



(** [main] over a directory with matching files: the count, the loop, the
    summary. *)
Lemma main_loop (w : World) (files : list Path) :
  path_exists PHOTOS_DIR (fs w) = true ->
  sorted (glob PHOTOS_DIR "*_hu_*.jpg" (fs w)) = files ->
  files <> [] ->
  main w =
  (let* _ := print (msg_found (length files)) in
   let* counts := process (length files) files 1 0 0 in
   let* _ := print (newline +:+ rule70) in
   let* _ := print (line_completed (fst counts) (length files) (snd counts)) in
   print rule70) w.
Proof.
  intros Hex Hfiles Hne. unfold main. rewrite Hex, Hfiles. cbn [negb].
  by destruct files.
Qed.

(** The run of [main] over a directory with matching files, when every
    per-file line can be printed. *)
Lemma main_processing (w : World) (files : list Path) :
  path_exists PHOTOS_DIR (fs w) = true ->
  sorted (glob PHOTOS_DIR "*_hu_*.jpg" (fs w)) = files ->
  files <> [] ->
  forallb encodable (report (length files) 1 files (fst (inject_all files w))) = true ->
  main w =
  (Ok tt,
   mkWorld (fs (snd (inject_all files w))) (calls (snd (inject_all files w)))
           (stdout w ++ [msg_found (length files)]
              ++ report (length files) 1 files (fst (inject_all files w))
              ++ summary (length files) (fst (inject_all files w)))).
Proof.
  intros Hex Hfiles Hne Hlines. rewrite (main_loop w files Hex Hfiles Hne).
  unfold bind at 1. rewrite (print_Ok _ _ (msg_found_encodable _)).
  unfold bind at 1. rewrite process_spec by (by rewrite inject_all_stdout).
  rewrite inject_all_stdout. cbn [fst snd fs calls stdout].
  unfold bind at 1. rewrite (print_Ok _ _ rule70_newline_encodable).
  unfold bind at 1. rewrite (print_Ok _ _ (line_completed_encodable _ _ _)).
  rewrite (print_Ok _ _ rule70_encodable).
  unfold summary. cbn [fst snd fs calls stdout].
  rewrite !Z.add_0_l. rewrite <- !app_assoc. reflexivity.
Qed.

(** [main] returns over such a directory only when every per-file line could
    be printed. *)
Lemma main_Ok_printable (w : World) (files : list Path) :
  path_exists PHOTOS_DIR (fs w) = true ->
  sorted (glob PHOTOS_DIR "*_hu_*.jpg" (fs w)) = files ->
  files <> [] ->
  fst (main w) = Ok tt ->
  forallb encodable (report (length files) 1 files (fst (inject_all files w))) = true.
Proof.
  intros Hex Hfiles Hne. rewrite (main_loop w files Hex Hfiles Hne).
  unfold bind at 1. rewrite (print_Ok _ _ (msg_found_encodable _)).
  unfold bind at 1.
  destruct (process _ _ _ _ _ _) as [[counts|e] w1] eqn:Hp; [|discriminate].
  intros _. apply process_Ok_printable in Hp.
  by rewrite inject_all_stdout in Hp.
Qed.

(** A run of [main] in general: it leaves the file system and the calls of
    the runs of [inject_exif] on the first files of the selection, however
    many it took. *)
Lemma main_any (w : World) :
  exists k r out,
    main w =
    (r, mkWorld
          (fs (snd (inject_all (take k (sorted (glob PHOTOS_DIR "*_hu_*.jpg" (fs w)))) w)))
          (calls (snd (inject_all (take k (sorted (glob PHOTOS_DIR "*_hu_*.jpg" (fs w)))) w)))
          out).
Proof.
  assert (Hone : forall s, exists r out,
             print s w = (r, mkWorld (fs w) (calls w) out)).
  { intros s. destruct (encodable s) eqn:He.
    - rewrite (print_Ok _ _ He). eauto.
    - destruct (print_Raise s w He) as (e & -> & _). exists (Raise e), (stdout w).
      by destruct w. }
  destruct (path_exists PHOTOS_DIR (fs w)) eqn:Hex.
  - destruct (sorted (glob PHOTOS_DIR "*_hu_*.jpg" (fs w))) as [|p rest] eqn:Hfiles.
    + unfold main. rewrite Hex, Hfiles. cbn [negb].
      destruct (Hone msg_no_images) as (r & out & ->). by exists 0%nat, r, out.
    + rewrite (main_loop w (p :: rest) Hex Hfiles) by done.
      set (files := p :: rest).
      unfold bind at 1. destruct (Hone (msg_found (length files))) as (r0 & out0 & ->).
      destruct r0 as [[]|e]; [|by exists 0%nat, (Raise e), out0].
      unfold bind at 1.
      destruct (process_any (length files) files 1 0 0 (mkWorld (fs w) (calls w) out0))
        as (k & r & out & ->).
      rewrite inject_all_stdout. cbn [snd fs calls].
      exists k. destruct r as [counts|e]; [|by eauto].
      unfold bind, print.
      repeat match goal with
             | |- context [encode_error ?a ?b] => destruct (encode_error a b)
             end; cbn [fs calls stdout]; eauto.
  - unfold main. rewrite Hex. cbn [negb].
    destruct (Hone msg_not_found) as (r & out & ->). by exists 0%nat, r, out.
Qed.

End Driver.

(** ** The batch driver *)



Section Batch.
Context {L : Libs}.


(** C6: when the target directory does not exist, [main] prints the one
    message that it was not found; when it exists and no entry has a name of
    the pattern, [main] prints the one message that no images were found,
    which is another message; in both cases no call is made and the file
    system is as it was. *)
Theorem driver_stops_early (w : World) :
  (path_exists PHOTOS_DIR (fs w) = false ->
   main w = (Ok tt, mkWorld (fs w) (calls w) (stdout w ++ [msg_not_found]))) /\
  (path_exists PHOTOS_DIR (fs w) = true ->
   (forall name, is_Some (fs w !! (PHOTOS_DIR ++ [name])) ->
                 ~ (has_infix "_hu_" name /\ ends_with ".jpg" name)) ->
   main w = (Ok tt, mkWorld (fs w) (calls w) (stdout w ++ [msg_no_images]))) /\
  msg_no_images <> msg_not_found.
Proof.
  repeat split.
  - intros Hex. unfold main. by rewrite Hex.
  - intros Hex Hnone. unfold main. rewrite Hex. cbn [negb].
    destruct (sorted (glob PHOTOS_DIR "*_hu_*.jpg" (fs w))) as [|p l] eqn:Hs; [done|].
    exfalso.
    assert (Hin : In p (sorted (glob PHOTOS_DIR "*_hu_*.jpg" (fs w))))
      by (rewrite Hs; by left).
    apply In_sorted, In_glob in Hin as (_ & name & -> & Hsome & Hm%matches_pattern_iff).
    by apply (Hnone name).
  - discriminate.
Qed.

(** C8: in the loop each file adds one to exactly one of the two counters;
    so, from zero, after any number of files both counters are at least
    zero and at most what they are at the end, and their sum is the number of
    files taken; and when [main] returns, the counts of the summary it has
    printed, on the last line but one, add up to the number of matched
    files.  The loop, and [main], return whenever the lines of the files
    can be printed. *)
Theorem counters_invariant (total : nat) (taken rest : list Path) (idx : Z) (w : World) :
  (printable_run (taken ++ rest) w = true ->
   exists counts w2, process total (taken ++ rest) idx 0 0 w = (Ok counts, w2)) /\
  (forall s1 f1 w1,
     process total taken idx 0 0 w = (Ok (s1, f1), w1) ->
     0 <= s1 /\ 0 <= f1 /\ s1 + f1 = Z.of_nat (length taken) /\
     (forall p s' f' w',
        process total [p] (idx + Z.of_nat (length taken)) s1 f1 w1 = (Ok (s', f'), w') ->
        (s' = s1 + 1 /\ f' = f1) \/ (s' = s1 /\ f' = f1 + 1)) /\
     (forall s2 f2 w2,
        process total rest (idx + Z.of_nat (length taken)) s1 f1 w1 = (Ok (s2, f2), w2) ->
        process total (taken ++ rest) idx 0 0 w = (Ok (s2, f2), w2) /\
        s1 <= s2 /\ f1 <= f2 /\
        s2 + f2 = Z.of_nat (length (taken ++ rest)))) /\
  (path_exists PHOTOS_DIR (fs w) = true ->
   sorted (glob PHOTOS_DIR "*_hu_*.jpg" (fs w)) <> [] ->
   let n := length (sorted (glob PHOTOS_DIR "*_hu_*.jpg" (fs w))) in
   (printable_run (sorted (glob PHOTOS_DIR "*_hu_*.jpg" (fs w))) w = true ->
    fst (main w) = Ok tt) /\
   (fst (main w) = Ok tt ->
    exists s f front,
      stdout (snd (main w)) =
        stdout w ++ front
        ++ ["Completed: " +:+ pretty s +:+ "/" +:+ pretty (Z.of_nat n)
              +:+ " ✓ | " +:+ pretty f +:+ " ✗";
            string_of_list_ascii (repeat "="%char 70)] /\
      0 <= s /\ 0 <= f /\ s + f = Z.of_nat n)).
Proof.
  split; [|split].
  - intros Hprint. rewrite (process_spec _ _ _ _ _ _ (printable_report _ _ _ _ Hprint)).
    eauto.
  - intros s1 f1 w1 H1. pose proof H1 as Hl1. apply process_Ok_printable in Hl1.
    pose proof H1 as H1'. rewrite (process_spec _ _ _ _ _ _ Hl1) in H1'.
    injection H1' as <- <- <-.
    set (o1 := fst (inject_all taken w)) in *.
    destruct (tally_total o1) as (Hs1 & Hf1 & Hsum1).
    destruct (inject_all_shape taken w) as (Hlen1 & _). fold o1 in Hlen1.
    split; [lia|]. split; [lia|]. split; [lia|]. split.
    + intros p s' f' w' Hp. pose proof Hp as Hlp. apply process_Ok_printable in Hlp.
      rewrite (process_spec _ _ _ _ _ _ Hlp) in Hp. clear Hlp.
      match type of Hp with
      | context [fst (inject_all [p] ?x)] =>
          destruct (inject_all_shape [p] x) as (Hlenp & _);
          destruct (fst (inject_all [p] x)) as [|r [|]]; try discriminate Hlenp
      end.
      rewrite successes_cons, failures_cons in Hp.
      change (successes []) with 0 in Hp. change (failures []) with 0 in Hp.
      injection Hp as <- <- _.
      destruct (fst r); lia.
    + intros s2 f2 w2 H2. split; [by rewrite process_app, H1|].
      pose proof H2 as Hl2. apply process_Ok_printable in Hl2.
      rewrite (process_spec _ _ _ _ _ _ Hl2) in H2. clear Hl2.
      match type of H2 with
      | context [fst (inject_all rest ?x)] =>
          destruct (inject_all_shape rest x) as (Hlen2 & _);
          destruct (tally_total (fst (inject_all rest x))) as (Hs2 & Hf2 & Hsum2);
          set (o2 := fst (inject_all rest x)) in *
      end.
      injection H2 as <- <- _.
      rewrite length_app, Nat2Z.inj_add. lia.
  - intros Hex Hne n. split.
    + intros Hp.
      by rewrite (main_processing w _ Hex eq_refl Hne (printable_report _ _ _ _ Hp)).
    + intros Hret.
      rewrite (main_processing w _ Hex eq_refl Hne
                 (main_Ok_printable w _ Hex eq_refl Hne Hret)).
      cbn [snd stdout]. subst n.
      set (files := sorted _) in *.
      destruct (tally_total (fst (inject_all files w))) as (Hs & Hf & Hsum).
      destruct (inject_all_shape files w) as (Hlen & _).
      exists (successes (fst (inject_all files w))), (failures (fst (inject_all files w))),
        ([msg_found (length files)]
           ++ report (length files) 1 files (fst (inject_all files w))
           ++ [newline +:+ rule70]).
      split; [|lia].
      unfold summary. rewrite <- !app_assoc. reflexivity.
Qed.

End Batch.



(** The mixed batch: a JPEG, an empty file and a PNG under a matching name
    give two successes and one failure, in the order of the names. *)
Example mixed_batch :
  stdout (snd (@main sample_libs sample_world)) =
  [ "📸 Found 3 images to process" +:+ newline;
    "✓ [ 1/3] a_hu_1.jpg                               ID: sha256:824cf919dd567ae2";
    "✗ [ 2/3] b_hu_2.jpg                               Error: cannot identify image file";
    "✓ [ 3/3] c_hu_3.jpg                               ID: sha256:0f4636c78f65d363";
    newline +:+ "======================================================================";
    "Completed: 2/3 ✓ | 1 ✗";
    "======================================================================" ].
Proof. vm_compute. reflexivity. Qed.

Lemma driver_stops_early_witness :
  @main sample_libs bare_world =
    (Ok tt, mkWorld ∅ [] ["❌ Directory docs/photography not found"]) /\
  @main sample_libs unmatched_world =
    (Ok tt, mkWorld (fs unmatched_world) []
                    ["❌ No images found in docs/photography"]).
Proof.
  pose proof (@driver_stops_early sample_libs bare_world) as (Hmissing & _ & _).
  pose proof (@driver_stops_early sample_libs unmatched_world) as (_ & Hnone & _).
  split.
  - apply Hmissing. vm_compute. reflexivity.
  - apply Hnone.
    + vm_compute. reflexivity.
    + intros name Hsome%In_scandir Hm%matches_pattern_iff.
      assert (Hall : forallb (fun n => negb (fnmatch (chars "*_hu_*.jpg") (chars n)))
                             (scandir PHOTOS_DIR (fs unmatched_world)) = true)
        by (vm_compute; reflexivity).
      rewrite forallb_forall in Hall. specialize (Hall name Hsome).
      rewrite Hm in Hall. discriminate Hall.
Defined.

Lemma counters_invariant_witness :
  exists s f front,
    stdout (snd (@main sample_libs sample_world)) =
      stdout sample_world ++ front
      ++ ["Completed: " +:+ pretty s +:+ "/"
            +:+ pretty (Z.of_nat (length (sorted (glob PHOTOS_DIR "*_hu_*.jpg"
                                                       (fs sample_world)))))
            +:+ " ✓ | " +:+ pretty f +:+ " ✗";
          string_of_list_ascii (repeat "="%char 70)] /\
    0 <= s /\ 0 <= f /\
    s + f = Z.of_nat (length (sorted (glob PHOTOS_DIR "*_hu_*.jpg" (fs sample_world)))).
Proof.
  assert (Hex : path_exists PHOTOS_DIR (fs sample_world) = true)
    by (vm_compute; reflexivity).
  assert (Hne : sorted (glob PHOTOS_DIR "*_hu_*.jpg" (fs sample_world)) <> [])
    by (vm_compute; discriminate).
  assert (Hprint : @printable_run sample_libs
                     (sorted (glob PHOTOS_DIR "*_hu_*.jpg" (fs sample_world)))
                     sample_world = true) by (vm_compute; reflexivity).
  pose proof (@counters_invariant sample_libs 3 [photo "a_hu_1.jpg"]
                [photo "b_hu_2.jpg"; photo "c_hu_3.jpg"] 1 sample_world)
    as (_ & _ & Hmain).
  pose proof (Hmain Hex Hne) as (Hret & Hsum).
  apply Hsum. apply Hret. exact Hprint.
Defined.

(** ** Running [inject_exif] again *)

Section Rerun.
Context {L : Libs}.

(** X13: when two runs in a row succeed, each identifier is that of the content
    the file had when its run started, the second one of what the first run
    saved; the two identifiers differ exactly when the sixteen-digit
    fingerprints of the two contents differ. *)
Lemma rerun_identifiers (image_path : Path) (w w1 w2 : World) (id1 id2 : string) :
  inject_exif image_path w = (Ok (true, id1), w1) ->
  inject_exif image_path w1 = (Ok (true, id2), w2) ->
  exists before after,
    fs w !! image_path = Some (File before) /\
    fs w1 !! image_path = Some (File after) /\
    id1 = identifier before /\ id2 = identifier after /\
    (id1 <> id2 <-> fingerprint before <> fingerprint after).
Proof.
  intros H1 H2.
  apply inject_exif_success in H1 as (before & _ & _ & Hb%read_bytes_Ok & -> & _).
  apply inject_exif_success in H2 as (after & _ & _ & Ha%read_bytes_Ok & -> & _).
  exists before, after. unfold identifier. repeat split; try done.
  - intros Hne Heq. apply Hne. by rewrite Heq.
  - intros Hne Heq. apply Hne. by apply (inj (String.app "sha256:")) in Heq.
Qed.

End Rerun.

(** * Further properties of [inject_exif] *)

Section MoreInject.
Context {L : Libs}.

(** X1: every container a run serializes carries the copyright, the creator and
    the identifier of the content the file had when the run started,
    whatever the container held before and whatever happens after. *)
Theorem stamped_fields (image_path : Path) (w : World) (d : ExifDict) :
  In (CallDump d) (calls_since w (snd (inject_exif image_path w))) ->
  exists data,
    fs w !! image_path = Some (File data) /\
    get_tag "0th" ImageIFD.Copyright d = Some (VBytes (encode_utf8 COPYRIGHT)) /\
    get_tag "0th" ImageIFD.Artist d = Some (VBytes (encode_utf8 CREATOR)) /\
    get_tag "Exif" ExifIFD.UserComment d =
      Some (VBytes (encode_utf8 (identifier data))).
Proof.
  intros Hin.
  by_run image_path w; rewrite Hrun in Hin; calls_norm; in_cases Hin.
  all: injection Hin as <-.
  all: match goal with H : read_bytes _ _ = Ok ?x |- _ =>
         apply read_bytes_Ok in H; exists x end.
  all: match goal with H : inject_fields _ _ = Ok _ |- _ =>
         apply inject_fields_Ok in H as (t0 & tE & _ & _ & ->) end.
  all: unfold get_tag; repeat split; try done.
  all: try (rewrite lookup_insert_eq; by rewrite lookup_insert_eq).
  all: rewrite lookup_insert_ne by done; rewrite lookup_insert_eq.
  all: try (by rewrite lookup_insert_eq).
  all: rewrite lookup_insert_ne by done; by rewrite lookup_insert_eq.
Qed.

(** X2: on a path that is not a regular file (absent, or a directory) the run
    fails at the read: after the load and the read nothing is called, the
    file system is as it was and nothing is printed. *)
Theorem not_a_file_fails (image_path : Path) (w : World) :
  (forall data, fs w !! image_path <> Some (File data)) ->
  exists detail,
    inject_exif image_path w =
    (Ok (false, detail),
     mkWorld (fs w)
             (calls w ++ [CallLoad (path_str image_path); CallRead image_path])
             (stdout w)).
Proof.
  intros Hnot. by_run image_path w; rewrite Hrun; calls_norm.
  all: try (match goal with H : read_bytes _ _ = Ok ?x |- _ =>
              apply read_bytes_Ok in H; by destruct (Hnot x) end).
  eauto.
Qed.

(** X3: when the loaded container lacks the primary directory, or has it and
    lacks the Exif directory, the assignment raises [KeyError]: the run fails
    with the quoted key as detail, having serialized and saved nothing. *)
Theorem missing_directory_fails (image_path : Path) (w : World)
        (d0 : ExifDict) (data : list byte) (key : string) :
  piexif_load (path_str image_path) (fs w) = Ok d0 ->
  fs w !! image_path = Some (File data) ->
  (key = "0th" /\ d0 !! "0th" = None) \/
  (key = "Exif" /\ (exists t0, d0 !! "0th" = Some (Ifd t0)) /\ d0 !! "Exif" = None) ->
  inject_exif image_path w =
  (Ok (false, "'" +:+ key +:+ "'"),
   mkWorld (fs w)
           (calls w ++ [CallLoad (path_str image_path); CallRead image_path])
           (stdout w)).
Proof.
  intros Hload Hfile%read_bytes_Ok Hkey.
  assert (Hc : container image_path w = d0) by (unfold container; by rewrite Hload).
  assert (Hraise : inject_fields (identifier data) d0 =
                   Raise (Exn "KeyError" ("'" +:+ key +:+ "'"))).
  { unfold inject_fields, set_tag.
    destruct Hkey as [[-> H0]|(-> & [t0 H0] & HE)]; rewrite H0; [done|].
    rewrite lookup_insert_eq. rewrite lookup_insert_ne by done.
    rewrite lookup_insert_ne by done. by rewrite HE. }
  by_run image_path w; rewrite Hrun; calls_norm; rewrite ?Hc in *; try congruence.
  match goal with H : read_bytes _ _ = Ok ?x |- _ =>
    assert (x = data) as -> by congruence end.
  match goal with H : inject_fields _ _ = Raise ?x |- _ =>
    assert (x = Exn "KeyError" ("'" +:+ key +:+ "'")) as -> by congruence end.
  reflexivity.
Qed.

(** X4: a run prints nothing and calls the libraries in the order load, read,
    serialize, open, save, stopping at the step that raises: at least the
    load and the read, at most one save, and the save last. *)
Theorem calls_in_order (image_path : Path) (w : World) :
  let w' := snd (inject_exif image_path w) in
  stdout w' = stdout w /\
  calls w' = calls w ++ calls_since w w' /\
  (2 <= length (calls_since w w'))%nat /\
  exists d blob, calls_since w w' `prefix_of` calls_to_save image_path d blob.
Proof.
  intros w'. subst w'.
  by_run image_path w; rewrite Hrun; calls_norm.
  all: repeat split; try done; cbn [length]; try lia.
  all: unfold prefix, calls_to_save.
  all: try (exists ∅, []; eexists; cbn [app]; reflexivity).
  all: try (eexists; exists []; eexists; cbn [app]; reflexivity).
  all: do 2 eexists; exists []; reflexivity.
Qed.

(** X5: a run succeeds exactly when every step returns: the file is read, the
    three assignments are made, the container is serialized, the image is
    opened and saved; the identifier is then that of the content read. *)
Theorem success_iff (image_path : Path) (w : World) (image_id : string) :
  fst (inject_exif image_path w) = Ok (true, image_id) <->
  exists data d blob img,
    read_bytes image_path (fs w) = Ok data /\
    image_id = identifier data /\
    inject_fields (identifier data) (container image_path w) = Ok d /\
    piexif_dump d = Ok blob /\
    Image_open image_path (fs w) = Ok img /\
    fst (Image_save img image_path "jpeg" 70 blob (fs w)) = Ok tt.
Proof.
  by_run image_path w; rewrite Hrun; cbn [fst]; split.
  all: try (intros [= <-]).
  all: try discriminate.
  all: try (intros (data & d & blob & img & ? & ? & ? & ? & ? & ?); congruence).
  match goal with u : unit |- _ => destruct u end. eauto 12.
Qed.

(** X6: the three assignments overwrite: on a container they were made on, they
    give what they give on the container before, so with the same identifier
    they change nothing, and tags do not pile up. *)
Theorem inject_fields_again (id1 id2 : string) (d0 d1 : ExifDict) :
  inject_fields id1 d0 = Ok d1 ->
  inject_fields id2 d1 = inject_fields id2 d0 /\
  inject_fields id1 d1 = Ok d1.
Proof.
  intros (t0 & tE & H0 & HE & ->)%inject_fields_Ok.
  assert (Hgen : forall id,
    inject_fields id
      (<["Exif" := Ifd (<[ExifIFD.UserComment := VBytes (encode_utf8 id1)]> tE)]>
         (<["0th" := Ifd (<[ImageIFD.Artist := VBytes (encode_utf8 CREATOR)]>
                           (<[ImageIFD.Copyright := VBytes (encode_utf8 COPYRIGHT)]> t0))]>
            d0)) = inject_fields id d0).
  { intros id.
    assert (Hd0 : exists d, inject_fields id d0 = Ok d)
      by (eexists; apply inject_fields_Ok; eauto).
    destruct Hd0 as [d Hd0]. rewrite Hd0.
    apply inject_fields_Ok in Hd0 as (t0' & tE' & H0' & HE' & ->).
    assert (t0' = t0) as -> by congruence. assert (tE' = tE) as -> by congruence.
    apply inject_fields_Ok. do 2 eexists.
    split; [by rewrite lookup_insert_ne, lookup_insert_eq|].
    split; [by rewrite lookup_insert_eq|].
    apply map_eq. intros k.
    destruct (decide (k = "Exif")) as [->|HkE].
    - rewrite !lookup_insert_eq. do 2 f_equal. by rewrite insert_insert_eq.
    - rewrite !(lookup_insert_ne _ "Exif") by done.
      destruct (decide (k = "0th")) as [->|Hk0].
      + rewrite !lookup_insert_eq. do 2 f_equal.
        apply map_eq. intros t.
        destruct (decide (t = ImageIFD.Artist)) as [->|HtA];
          [by rewrite !lookup_insert_eq|].
        destruct (decide (t = ImageIFD.Copyright)) as [->|HtC];
          repeat first [rewrite lookup_insert_eq
                       |rewrite lookup_insert_ne by done]; done.
      + repeat first [rewrite lookup_insert_eq
                     |rewrite lookup_insert_ne by done]; done. }
  split; [apply Hgen|].
  rewrite Hgen. apply inject_fields_Ok. eauto.
Qed.

End MoreInject.

(** * Further properties of the driver *)

Lemma NoDup_scandir (dir : Path) (files : FS) : NoDup (scandir dir files).
Proof.
  unfold scandir. pose proof (NoDup_fst_map_to_list files) as Hnd.
  induction (map_to_list files) as [|[p x] l IH]; cbn [omap list_omap fst]; [constructor|].
  cbn in Hnd. apply NoDup_cons in Hnd as [Hp Hnd].
  destruct (child_name dir p) as [name|] eqn:Hc; cbn; [|by apply IH].
  apply NoDup_cons. split; [|by apply IH].
  intros ([q y] & Hin & Hq)%list_elem_of_omap. cbn [fst] in Hq.
  apply child_name_Some in Hc, Hq. subst p q.
  apply Hp. apply list_elem_of_fmap. by exists (dir ++ [name], y).
Qed.

Lemma NoDup_glob (dir : Path) (pattern : string) (files : FS) :
  NoDup (glob dir pattern files).
Proof.
  unfold glob. destruct (path_is_dir dir files); [|constructor].
  pose proof (NoDup_scandir dir files) as Hnd.
  apply NoDup_ListNoDup in Hnd.
  apply (List.NoDup_filter
           (fun name => fnmatch (list_ascii_of_string pattern)
                                (list_ascii_of_string name))) in Hnd.
  apply NoDup_ListNoDup.
  induction Hnd as [|name l Hnot Hnd IH]; cbn [map]; constructor; [|done].
  intros (name' & Heq & Hin)%in_map_iff.
  apply app_inj_tail in Heq as [_ ->]. done.
Qed.

(** X7: the files the driver takes are pairwise different: no file is processed
    twice in a run. *)
Theorem selected_no_dup (files : FS) :
  NoDup (sorted (glob PHOTOS_DIR "*_hu_*.jpg" files)).
Proof.
  unfold sorted. rewrite merge_sort_Permutation. apply NoDup_glob.
Qed.

Section MoreDriver.
Context {L : Libs}.


Lemma In_take {A} (x : A) (k : nat) (l : list A) : In x (take k l) -> In x l.
Proof. intros H. rewrite <- (take_drop k l). apply in_or_app. by left. Qed.

(** One run, with the saves it makes: each on the file of the run, as JPEG,
    at quality 70. *)
Lemma inject_exif_saves (image_path : Path) (w : World) :
  exists r files cs,
    inject_exif image_path w = (Ok r, mkWorld files (calls w ++ cs) (stdout w)) /\
    (forall path format quality blob,
       In (CallSave path format quality blob) cs ->
       path = image_path /\ format = "jpeg" /\ quality = 70) /\
    (save_is_local -> forall other, other <> image_path -> files !! other = fs w !! other).
Proof.
  by_run image_path w; rewrite Hrun; unfold log, calls_to_save; cbn [fs calls stdout];
    rewrite <- ?app_assoc; do 3 eexists; (split; [reflexivity|]); split.
  all: try (intros p f q b Hin; in_cases Hin; by injection Hin as <- <- <- ).
  all: try done.
  all: intros Hlocal other Hne; by apply Hlocal.
Qed.

Lemma inject_all_saves (files : list Path) (w : World) :
  exists cs,
    calls (snd (inject_all files w)) = calls w ++ cs /\
    (forall path format quality blob,
       In (CallSave path format quality blob) cs ->
       In path files /\ format = "jpeg" /\ quality = 70) /\
    (save_is_local -> forall other, ~ In other files ->
       fs (snd (inject_all files w)) !! other = fs w !! other).
Proof.
  revert w. induction files as [|p files IH]; intros w; cbn [inject_all].
  - exists []. rewrite app_nil_r. repeat split; try done.
  - destruct (inject_exif_saves p w) as (r & files1 & cs1 & -> & Hs1 & Ho1).
    destruct (IH (mkWorld files1 (calls w ++ cs1) (stdout w))) as (cs & Hc & Hs & Ho).
    destruct (inject_all files _) as [rs w2]. cbn [fst snd fs calls] in *.
    exists (cs1 ++ cs). split; [by rewrite Hc, app_assoc|]. split.
    + intros path f q b [Hin|Hin]%in_app_iff.
      * destruct (Hs1 _ _ _ _ Hin) as (-> & -> & ->). repeat split. by left.
      * destruct (Hs _ _ _ _ Hin) as (Hp & -> & ->). repeat split. by right.
    + intros Hlocal other Hnot.
      rewrite (Ho Hlocal other) by (intros Hin; apply Hnot; by right).
      apply (Ho1 Hlocal). intros ->. apply Hnot. by left.
Qed.

(** X9: every save of a run of [main] is on a selected file, in the JPEG format
    and at quality 70. *)
Theorem saves_by_main (w : World) (path : Path) (format : string) (quality : Z)
        (blob : list byte) :
  In (CallSave path format quality blob) (calls_since w (snd (main w))) ->
  In path (sorted (glob PHOTOS_DIR "*_hu_*.jpg" (fs w))) /\
  format = "jpeg" /\ quality = 70.
Proof.
  intros Hin. destruct (main_any w) as (k & r & out & Hmain).
  rewrite Hmain in Hin. unfold calls_since in Hin. cbn [snd calls] in Hin.
  destruct (inject_all_saves (take k (sorted (glob PHOTOS_DIR "*_hu_*.jpg" (fs w)))) w)
    as (cs & Hc & Hs & _).
  rewrite Hc, drop_app_length in Hin.
  destruct (Hs _ _ _ _ Hin) as (Hp & -> & ->). repeat split.
  by apply In_take in Hp.
Qed.

(** X10: when saving writes only the path it is given, a run of [main] leaves
    every path it did not select as it was: files outside the pattern, or
    outside the directory, are never touched. *)
Theorem main_touches_only_selected (w : World) (other : Path) :
  save_is_local ->
  ~ In other (sorted (glob PHOTOS_DIR "*_hu_*.jpg" (fs w))) ->
  fs (snd (main w)) !! other = fs w !! other.
Proof.
  intros Hlocal Hnot. destruct (main_any w) as (k & r & out & Hmain).
  rewrite Hmain. cbn [snd fs].
  destruct (inject_all_saves (take k (sorted (glob PHOTOS_DIR "*_hu_*.jpg" (fs w)))) w)
    as (cs & _ & _ & Ho).
  apply (Ho Hlocal). intros Hin. apply Hnot. by apply In_take in Hin.
Qed.

End MoreDriver.

(** X11: the identifier is a function of the content alone: two successful runs
    on files with the same bytes return the same identifier, whatever the
    paths, the rest of the file systems, the metadata already there and the
    behaviour of the libraries. *)
Theorem same_content_same_identifier (L1 L2 : Libs) (p1 p2 : Path)
        (w1 w2 : World) (id1 id2 : string) :
  fst (@inject_exif L1 p1 w1) = Ok (true, id1) ->
  fst (@inject_exif L2 p2 w2) = Ok (true, id2) ->
  fs w1 !! p1 = fs w2 !! p2 ->
  id1 = id2.
Proof.
  intros H1 H2 Heq.
  destruct (@inject_exif L1 p1 w1) as [r1 v1] eqn:E1.
  destruct (@inject_exif L2 p2 w2) as [r2 v2] eqn:E2.
  cbn [fst] in H1, H2. subst r1 r2.
  apply inject_exif_success in E1 as (d1 & _ & _ & Hr1%read_bytes_Ok & -> & _).
  apply inject_exif_success in E2 as (d2 & _ & _ & Hr2%read_bytes_Ok & -> & _).
  rewrite Hr1, Hr2 in Heq. by injection Heq as ->.
Qed.

Section SaveFailure.
Context {L : Libs}.

(** X14: when the save raises, the run reports the failure and the file
    system is what the interrupted save left: nothing is restored, so the
    file may be lost. *)
Theorem save_failure_not_rolled_back (image_path : Path) (w : World) (e : exn) :
  raises_at AtSave image_path w e ->
  fst (inject_exif image_path w) = Ok (false, exn_str e) /\
  exists img blob,
    Image_open image_path (fs w) = Ok img /\
    fs (snd (inject_exif image_path w)) =
    snd (Image_save img image_path "jpeg" 70 blob (fs w)).
Proof.
  intros Hs.
  assert (Hfail : fst (inject_exif image_path w) = Ok (false, exn_str e)).
  { apply inject_exif_failure_iff. eauto. }
  split; [done|].
  cbn [raises_at] in Hs. destruct Hs as (data & d & blob & img & H1 & H2 & H3 & H4 & H5).
  exists img, blob. split; [done|].
  pose proof (inject_exif_run image_path w) as Hrun. cbv zeta in Hrun.
  rewrite H1 in Hrun. cbv beta iota in Hrun.
  rewrite H2 in Hrun. cbv beta iota in Hrun.
  rewrite H3 in Hrun. cbv beta iota in Hrun.
  rewrite H4 in Hrun. cbv beta iota in Hrun.
  rewrite H5 in Hrun. cbv beta iota in Hrun.
  by rewrite Hrun.
Qed.

End SaveFailure.

(** ** The columns of the per-file lines *)

(** X12: in a per-file line the index is padded on the left to two columns and
    the name on the right to forty, counted in code points, and neither is
    ever cut: the line is the mark, the index, the total, the name, the
    padding, the label and the identifier or error, so that the identifier or
    error starts at the column that follows the longer of the name and forty
    columns. *)
Theorem line_columns (idx : Z) (total : nat) (name result : string) :
  let width := (3 + Nat.max 2 (py_len (pretty idx)) + 1
                + py_len (pretty (Z.of_nat total)) + 2)%nat in
  (exists head pad,
     line_ok idx total name result =
       head +:+ name +:+ spaces pad +:+ " ID: " +:+ result /\
     py_len head = width /\ (py_len name + pad = Nat.max 40 (py_len name))%nat) /\
  (exists head pad,
     line_failed idx total name result =
       head +:+ name +:+ spaces pad +:+ " Error: " +:+ result /\
     py_len head = width /\ (py_len name + pad = Nat.max 40 (py_len name))%nat) /\
  py_len (line_ok idx total name result) =
    (width + Nat.max 40 (py_len name) + 5 + py_len result)%nat /\
  py_len (line_failed idx total name result) =
    (width + Nat.max 40 (py_len name) + 8 + py_len result)%nat.
Proof.
  intros width.
  assert (Hok : encodable "✓ [" = true) by reflexivity.
  assert (Hfailed : encodable "✗ [" = true) by reflexivity.
  pose proof (head_py_len _ idx total Hok) as Hw1.
  pose proof (head_py_len _ idx total Hfailed) as Hw2.
  change (py_len "✓ [") with 3%nat in Hw1. change (py_len "✗ [") with 3%nat in Hw2.
  fold width in Hw1, Hw2.
  repeat split.
  - exists ("✓ [" +:+ fmt_2d idx +:+ "/" +:+ pretty (Z.of_nat total) +:+ "] "),
      (40 - py_len name)%nat.
    rewrite line_ok_split, (string_app_assoc name).
    split; [reflexivity|]. split; [exact Hw1|lia].
  - exists ("✗ [" +:+ fmt_2d idx +:+ "/" +:+ pretty (Z.of_nat total) +:+ "] "),
      (40 - py_len name)%nat.
    rewrite line_failed_split, (string_app_assoc name).
    split; [reflexivity|]. split; [exact Hw2|lia].
  - rewrite line_ok_split, line_py_len, Hw1; [|by apply head_encodable|done|done].
    change (py_len " ID: ") with 5%nat. lia.
  - rewrite line_failed_split, line_py_len, Hw2; [|by apply head_encodable|done|done].
    change (py_len " Error: ") with 8%nat. lia.
Qed.

(** ** The further properties on the sample *)

Lemma sample_save_local : @save_is_local sample_libs.
Proof.
  intros img path format quality exif files other Hne. cbn.
  apply lookup_insert_ne. congruence.
Qed.


Lemma stamped_fields_witness :
  let d : ExifDict :=
    <["Exif" := Ifd {[ ExifIFD.UserComment :=
                         VBytes (encode_utf8 "sha256:0f4636c78f65d363") ]}]>
      (<["0th" := Ifd (<[ImageIFD.Artist := VBytes (encode_utf8 CREATOR)]>
                        {[ ImageIFD.Copyright := VBytes (encode_utf8 COPYRIGHT) ]})]>
         empty_exif_dict) in
  exists data,
    fs sample_world !! photo "c_hu_3.jpg" = Some (File data) /\
    get_tag "0th" ImageIFD.Copyright d = Some (VBytes (encode_utf8 COPYRIGHT)) /\
    get_tag "0th" ImageIFD.Artist d = Some (VBytes (encode_utf8 CREATOR)) /\
    get_tag "Exif" ExifIFD.UserComment d =
      Some (VBytes (encode_utf8 (identifier data))).
Proof.
  intros d.
  apply (@stamped_fields sample_libs (photo "c_hu_3.jpg") sample_world d).
  subst d. vm_compute. right. right. left. reflexivity.
Defined.

Lemma not_a_file_fails_witness :
  exists detail,
    @inject_exif sample_libs (photo "sub") sample_world =
    (Ok (false, detail),
     mkWorld (fs sample_world)
             (calls sample_world ++
                [CallLoad (path_str (photo "sub")); CallRead (photo "sub")])
             (stdout sample_world)).
Proof.
  apply (@not_a_file_fails sample_libs (photo "sub") sample_world).
  intros data. vm_compute. discriminate.
Defined.

Lemma missing_directory_fails_witness :
  @inject_exif headless_libs (photo "a_hu_1.jpg") sample_world =
  (Ok (false, "'" +:+ "0th" +:+ "'"),
   mkWorld (fs sample_world)
           (calls sample_world ++
              [CallLoad (path_str (photo "a_hu_1.jpg")); CallRead (photo "a_hu_1.jpg")])
           (stdout sample_world)).
Proof.
  apply (@missing_directory_fails headless_libs (photo "a_hu_1.jpg") sample_world
           ∅ [xff; xd8; x01; x02] "0th").
  - reflexivity.
  - vm_compute. reflexivity.
  - left. split; reflexivity.
Defined.

Lemma saves_by_main_witness :
  In (photo "a_hu_1.jpg") (sorted (glob PHOTOS_DIR "*_hu_*.jpg" (fs sample_world))) /\
  "jpeg" = "jpeg" /\ 70 = 70.
Proof.
  apply (@saves_by_main sample_libs sample_world (photo "a_hu_1.jpg") "jpeg" 70
           (bytes_of_string "Exifsha256:824cf919dd567ae2")).
  vm_compute. do 4 right. left. reflexivity.
Defined.

Lemma main_touches_only_selected_witness :
  fs (snd (@main sample_libs sample_world)) !! photo "plain.jpg" =
  fs sample_world !! photo "plain.jpg".
Proof.
  apply (@main_touches_only_selected sample_libs sample_world (photo "plain.jpg")).
  - exact sample_save_local.
  - assert (Hsel : sorted (glob PHOTOS_DIR "*_hu_*.jpg" (fs sample_world)) =
                   [photo "a_hu_1.jpg"; photo "b_hu_2.jpg"; photo "c_hu_3.jpg"])
      by (vm_compute; reflexivity).
    rewrite Hsel. intros [H|[H|[H|[]]]]; discriminate H.
Defined.

Lemma same_content_same_identifier_witness :
  "sha256:824cf919dd567ae2" = "sha256:824cf919dd567ae2".
Proof.
  apply (same_content_same_identifier sample_libs sample_libs
           (photo "a_hu_1.jpg") ["copy.jpg"] sample_world
           (mkWorld (<[ ["copy.jpg"] := File [xff; xd8; x01; x02] ]> ∅) [] [])).
  - vm_compute. reflexivity.
  - vm_compute. reflexivity.
  - vm_compute. reflexivity.
Defined.

Lemma inject_fields_again_witness :
  let d1 : ExifDict :=
    match inject_fields "sha256:0000000000000000" empty_exif_dict with
    | Ok d => d
    | Raise _ => ∅
    end in
  inject_fields "sha256:1111111111111111" d1 =
    inject_fields "sha256:1111111111111111" empty_exif_dict /\
  inject_fields "sha256:0000000000000000" d1 = Ok d1.
Proof.
  intros d1.
  apply (inject_fields_again "sha256:0000000000000000" "sha256:1111111111111111"
           empty_exif_dict d1).
  subst d1. vm_compute. reflexivity.
Defined.

Lemma rerun_identifiers_witness :
  let p := photo "a_hu_1.jpg" in
  let w1 := snd (@inject_exif sample_libs p sample_world) in
  exists before after,
    fs sample_world !! p = Some (File before) /\
    fs w1 !! p = Some (File after) /\
    "sha256:824cf919dd567ae2" = identifier before /\
    fst (@inject_exif sample_libs p w1) = Ok (true, identifier after) /\
    identifier before <> identifier after.
Proof.
  intros p w1.
  destruct (@inject_exif sample_libs p w1) as [r2 w2] eqn:E2.
  assert (Hr2 : r2 = Ok (true, "sha256:cf4a51a184eb914e")).
  { change r2 with (fst (r2, w2)). rewrite <- E2. subst w1 p.
    vm_compute. reflexivity. }
  subst r2.
  destruct (@rerun_identifiers sample_libs p sample_world w1 w2
              "sha256:824cf919dd567ae2" "sha256:cf4a51a184eb914e")
    as (before & after & Hb & Ha & H1 & H2 & Hiff).
  - subst w1 p. vm_compute. reflexivity.
  - exact E2.
  - exists before, after. cbn [fst]. rewrite <- H1, <- H2.
    repeat split; try done.
Defined.

Lemma save_failure_not_rolled_back_witness :
  fst (@inject_exif truncating_libs (photo "a_hu_1.jpg") sample_world) =
    Ok (false, "cannot write mode RGBA as JPEG") /\
  fs (snd (@inject_exif truncating_libs (photo "a_hu_1.jpg") sample_world))
    !! photo "a_hu_1.jpg" = Some (File []).
Proof.
  destruct (@save_failure_not_rolled_back truncating_libs (photo "a_hu_1.jpg")
              sample_world (Exn "OSError" "cannot write mode RGBA as JPEG"))
    as (Hfail & img & blob & _ & Hfs).
  - cbn [raises_at]. do 4 eexists. repeat split; vm_compute; reflexivity.
  - split; [exact Hfail|]. rewrite Hfs. cbn. apply lookup_insert_eq.
Defined.
